(** * Verification of the decision-tree learner of [hm05/hw5code.py]

    The development embeds [find_best_split] and the class [DecisionTree]
    ([__init__], [_fit_node], [_predict_node], [fit], [predict]) as Rocq
    functions and proves the properties of the natural-language
    specification about them.

    Modelling conventions.
    - numpy floats are modelled by the rationals [Q]: arithmetic is exact,
      rounding is not modelled.  Two numbers are the same value when they are
      [Qeq]; every comparison of the code is a boolean comparison on [Q].
    - class labels are integers ([Z]); the code compares them with [== 1].
    - a Python exception is a value of [exn]; a computation that may raise
      returns a [result].
    - a Python [dict] with a fixed set of keys (a tree node) is a record of
      optional fields; a [Counter] is an association list in first-insertion
      order, which is the iteration order of a Python dict. *)

From Stdlib Require Import String.
From Stdlib Require Import List ZArith QArith Bool Arith Lia.
From Stdlib Require Import Sorting.Sorted Permutation Lqa.
From Stdlib Require Import SetoidList SetoidPermutation.
Import ListNotations.
Close Scope Q_scope.
Open Scope nat_scope.

Set Implicit Arguments.

(* ================================================================= *)
(** ** Exceptions and results *)

Inductive exn : Type :=
| ValueError (msg : string)
| IndexError
| KeyError
| AttributeError
| ZeroDivisionError
| TypeError
| RecursionError.

Inductive result (A : Type) : Type :=
| Ok (a : A)
| Raise (e : exn).

Arguments Ok {A} a.
Arguments Raise {A} e.

Definition bind {A B : Type} (m : result A) (k : A -> result B) : result B :=
  match m with
  | Ok a => k a
  | Raise e => Raise e
  end.

Declare Scope py_scope.
Delimit Scope py_scope with py.
Notation "x <- m ;; k" := (bind m (fun x => k))
  (at level 61, m at next level, right associativity) : py_scope.
Notation "' pat <- m ;; k" := (bind m (fun x => match x with pat => k end))
  (at level 61, pat pattern, m at next level, right associativity) : py_scope.
Open Scope py_scope.

(* ================================================================= *)
(** ** Python values that cross the interface of [find_best_split] *)

Inductive pyval : Type :=
| PNone
| PFloat (q : Q)
| PList (l : list Q)       (* a Python list of numbers *)
| PArray (l : list Q).     (* a one-dimensional numpy array *)

(** A Python tuple is the list of its components. *)
Definition pytuple : Type := list pyval.

(** [a, b = t]: the tuple must have exactly two components. *)
Definition unpack2 (t : pytuple) : result (pyval * pyval) :=
  match t with
  | [a; b] => Ok (a, b)
  | _ :: _ :: _ :: _ => Raise (ValueError "too many values to unpack (expected 2)")
  | _ => Raise (ValueError "not enough values to unpack")
  end.

(* ================================================================= *)
(** ** Numbers *)

Definition Qltb (x y : Q) : bool := negb (Qle_bool y x).

Definition Q_of_nat (n : nat) : Q := inject_Z (Z.of_nat n).

Definition Qsum (l : list Q) : Q := fold_left Qplus l 0%Q.

(** Python's [/] on two Python integers. *)
Definition py_div (a b : nat) : result Q :=
  match b with
  | O => Raise ZeroDivisionError
  | S _ => Ok (Q_of_nat a / Q_of_nat b)%Q
  end.

(* ================================================================= *)
(** ** numpy helpers *)

(** [np.unique]: the sorted distinct values. *)
Fixpoint insert_unique (x : Q) (l : list Q) : list Q :=
  match l with
  | [] => [x]
  | y :: l' =>
      match (x ?= y)%Q with
      | Lt => x :: l
      | Eq => l
      | Gt => y :: insert_unique x l'
      end
  end.

Definition np_unique (v : list Q) : list Q := fold_right insert_unique [] v.

Definition np_any (mask : list bool) : bool := existsb (fun b => b) mask.

(** [mask.sum()]: the number of [True] entries. *)
Definition mask_sum (mask : list bool) : nat := count_occ bool_dec mask true.

(** [v[mask]] with a boolean mask: numpy raises [IndexError] when the mask
    does not have the length of [v]. *)
Definition mask_select {A : Type} (v : list A) (mask : list bool)
  : result (list A) :=
  if Nat.eqb (length v) (length mask)
  then Ok (map fst (filter snd (combine v mask)))
  else Raise IndexError.

(** [np.argmin] / [np.argmax]: the first index of an extremal element. *)
Fixpoint argmin_from (best : Q) (besti i : nat) (l : list Q) : nat :=
  match l with
  | [] => besti
  | x :: l' =>
      if Qltb x best then argmin_from x i (S i) l'
      else argmin_from best besti (S i) l'
  end.

Definition np_argmin (l : list Q) : result nat :=
  match l with
  | [] => Raise (ValueError "attempt to get argmin of an empty sequence")
  | x :: l' => Ok (argmin_from x 0 1 l')
  end.

Fixpoint argmax_from (best : Q) (besti i : nat) (l : list Q) : nat :=
  match l with
  | [] => besti
  | x :: l' =>
      if Qltb best x then argmax_from x i (S i) l'
      else argmax_from best besti (S i) l'
  end.

Definition np_argmax (l : list Q) : result nat :=
  match l with
  | [] => Raise (ValueError "attempt to get argmax of an empty sequence")
  | x :: l' => Ok (argmax_from x 0 1 l')
  end.

(** [l[i]] on a Python list or numpy array. *)
Definition getitem {A : Type} (l : list A) (i : nat) : result A :=
  match nth_error l i with
  | Some a => Ok a
  | None => Raise IndexError
  end.

(* ================================================================= *)
(** ** [collections.Counter] *)

Section CounterDef.
Variable K : Type.
Variable eqb : K -> K -> bool.

Definition counter : Type := list (K * nat).

Fixpoint counter_add (k : K) (c : counter) : counter :=
  match c with
  | [] => [(k, 1)]
  | (k', n) :: c' =>
      if eqb k' k then (k', S n) :: c' else (k', n) :: counter_add k c'
  end.

(** [Counter(iterable)] counts the elements from left to right. *)
Definition Counter (l : list K) : counter :=
  fold_left (fun c k => counter_add k c) l [].

Definition values (c : counter) : list nat := map snd c.
Definition keys (c : counter) : list K := map fst c.

(** [key in c] *)
Fixpoint counter_mem (k : K) (c : counter) : bool :=
  match c with
  | [] => false
  | (k', _) :: c' => eqb k' k || counter_mem k c'
  end.

(** [c[key]]: a Counter answers 0 for a missing key. *)
Fixpoint counter_get (k : K) (c : counter) : nat :=
  match c with
  | [] => 0
  | (k', n) :: c' => if eqb k' k then n else counter_get k c'
  end.
End CounterDef.

(* ================================================================= *)
(** ** [find_best_split] *)

(** [1 - sum((count / size) ** 2 for count in counts.values())] *)
Definition gini_of (counts : counter Z) (size : nat) : Q :=
  (1 - Qsum (map (fun count => (Q_of_nat count / Q_of_nat size) ^ 2)
               (values counts)))%Q.

(** One iteration of the loop over [range(len(unique_values) - 1)]; the
    accumulator is the pair of lists [thresholds], [ginis]. *)
Definition split_step (feature_vector : list Q) (target_vector : list Z)
  (unique_values : list Q) (total_count : nat)
  (acc : list Q * list Q) (i : nat) : result (list Q * list Q) :=
  let threshold := ((nth i unique_values 0 + nth (i + 1) unique_values 0) / 2)%Q in
  let left_mask := map (fun x => Qltb x threshold) feature_vector in
  let right_mask := map negb left_mask in
  if np_any left_mask && np_any right_mask then
    left_y <- mask_select target_vector left_mask ;;
    let left_counts := Counter Z.eqb left_y in
    right_y <- mask_select target_vector right_mask ;;
    let right_counts := Counter Z.eqb right_y in
    let left_size := mask_sum left_mask in
    let right_size := mask_sum right_mask in
    let left_gini := gini_of left_counts left_size in
    let right_gini := gini_of right_counts right_size in
    let weighted_gini :=
      ((Q_of_nat left_size / Q_of_nat total_count) * left_gini
       + (Q_of_nat right_size / Q_of_nat total_count) * right_gini)%Q in
    Ok (fst acc ++ [threshold], snd acc ++ [weighted_gini])
  else Ok acc.

Fixpoint split_loop (feature_vector : list Q) (target_vector : list Z)
  (unique_values : list Q) (total_count : nat)
  (acc : list Q * list Q) (range : list nat) : result (list Q * list Q) :=
  match range with
  | [] => Ok acc
  | i :: range' =>
      acc' <- split_step feature_vector target_vector unique_values
                total_count acc i ;;
      split_loop feature_vector target_vector unique_values total_count
        acc' range'
  end.

Definition find_best_split (feature_vector : list Q) (target_vector : list Z)
  : result pytuple :=
  let unique_values := np_unique feature_vector in
  if Nat.ltb (length unique_values) 2 then
    Ok [PList []; PList []; PNone; PNone]
  else
    let total_count := length target_vector in
    let class_counts := Counter Z.eqb target_vector in
    let initial_gini := gini_of class_counts total_count in
    '(thresholds, ginis) <-
      split_loop feature_vector target_vector unique_values total_count
        ([], []) (seq 0 (length unique_values - 1)) ;;
    match ginis with
    | _ :: _ =>
        gini_best_index <- np_argmin ginis ;;
        threshold_best <- getitem thresholds gini_best_index ;;
        gini_best <- getitem ginis gini_best_index ;;
        Ok [PArray thresholds; PArray ginis;
            PFloat threshold_best; PFloat gini_best]
    | [] => Ok [PList []; PList []; PNone; PNone]
    end.

(** Readers of the returned 4-tuple
    [(thresholds, ginis, threshold_best, gini_best)]. *)
Definition seq_of (v : pyval) : list Q :=
  match v with
  | PList l | PArray l => l
  | _ => []
  end.

Definition float_of (v : pyval) : option Q :=
  match v with
  | PFloat q => Some q
  | _ => None
  end.

Definition thresholds_of (t : pytuple) : list Q := seq_of (nth 0 t PNone).
Definition ginis_of (t : pytuple) : list Q := seq_of (nth 1 t PNone).
Definition threshold_best_of (t : pytuple) : option Q := float_of (nth 2 t PNone).
Definition gini_best_of (t : pytuple) : option Q := float_of (nth 3 t PNone).

(* ================================================================= *)
(** ** The class [DecisionTree] *)

(** The feature matrix: a two-dimensional numpy array of shape
    [(length rows, ncols)]. *)
Record matrix : Type := Matrix { ncols : nat; rows : list (list Q) }.

(** [X[:, j]] *)
Definition column (X : matrix) (j : nat) : list Q :=
  map (fun r => nth j r 0%Q) (rows X).

(** [X[mask]] *)
Definition select_rows (X : matrix) (mask : list bool) : result matrix :=
  rs <- mask_select (rows X) mask ;;
  Ok (Matrix (ncols X) rs).

(** A node of the tree is a Python dict with the keys ["type"], ["class"],
    ["feature_split"], ["threshold"], ["left_child"] and ["right_child"];
    a key that was never assigned is [None] here, and reading it raises
    [KeyError]. *)
#[warnings="-register-all"]
Inductive node : Type :=
  Node { ntype : option string;
         nclass : option Z;
         feature_split : option nat;
         threshold : option Q;
         left_child : option node;
         right_child : option node }.

(** The empty dict. *)
Definition empty_node : node := Node None None None None None None.

Definition dict_get {A : Type} (field : option A) : result A :=
  match field with
  | Some a => Ok a
  | None => Raise KeyError
  end.

Record DecisionTree : Type := Build_DecisionTree {
  _tree : node;
  _feature_types : list string;
  _max_depth : option nat;
  _min_samples_split : option nat;
  _min_samples_leaf : option nat }.

Definition unknown_kind (x : string) : bool :=
  negb (String.eqb x "real") && negb (String.eqb x "categorical").

Definition __init__ (feature_types : list string)
  (max_depth min_samples_split min_samples_leaf : option nat)
  : result DecisionTree :=
  if np_any (map unknown_kind feature_types)
  then Raise (ValueError "There is unknown feature type")
  else Ok (Build_DecisionTree empty_node feature_types max_depth
             min_samples_split min_samples_leaf).

(** *** The categorical branch of [_fit_node] (lines 98 to 103) *)

(** [{key: counts[key] / clicks[key] if key in clicks else 0 for key in counts}] *)
Fixpoint ratio_of (counts clicks : counter Q) (ks : list Q)
  : result (list (Q * Q)) :=
  match ks with
  | [] => Ok []
  | key :: ks' =>
      r <- (if counter_mem Qeq_bool key clicks
            then py_div (counter_get Qeq_bool key counts)
                        (counter_get Qeq_bool key clicks)
            else Ok 0%Q) ;;
      rest <- ratio_of counts clicks ks' ;;
      Ok ((key, r) :: rest)
  end.

(** [sorted(items, key=lambda x: x[1])]: a stable ascending sort. *)
Fixpoint insert_by_key (x : Q * Q) (l : list (Q * Q)) : list (Q * Q) :=
  match l with
  | [] => [x]
  | y :: l' =>
      if Qle_bool (snd x) (snd y) then x :: l else y :: insert_by_key x l'
  end.

Definition sorted_by_key (items : list (Q * Q)) : list (Q * Q) :=
  fold_right insert_by_key [] items.

(** [{cat: idx for idx, (cat, _) in enumerate(sorted_categories)}] *)
Fixpoint enumerate_from (idx : nat) (cats : list (Q * Q)) : list (Q * nat) :=
  match cats with
  | [] => []
  | (cat, _) :: cats' => (cat, idx) :: enumerate_from (S idx) cats'
  end.

(** [categories_map[x]] *)
Fixpoint map_get (x : Q) (m : list (Q * nat)) : result nat :=
  match m with
  | [] => Raise KeyError
  | (cat, idx) :: m' => if Qeq_bool cat x then Ok idx else map_get x m'
  end.

Fixpoint map_result {A B : Type} (f : A -> result B) (l : list A)
  : result (list B) :=
  match l with
  | [] => Ok []
  | a :: l' =>
      b <- f a ;;
      bs <- map_result f l' ;;
      Ok (b :: bs)
  end.

Definition categorical_feature_vector (col : list Q) (sub_y : list Z)
  : result (list Q) :=
  let counts := Counter Qeq_bool col in
  clicked <- mask_select col (map (fun y => Z.eqb y 1) sub_y) ;;
  let clicks := Counter Qeq_bool clicked in
  ratio <- ratio_of counts clicks (keys counts) ;;
  let sorted_categories := sorted_by_key ratio in
  let categories_map := enumerate_from 0 sorted_categories in
  ranks <- map_result (fun x => map_get x categories_map) col ;;
  Ok (map Q_of_nat ranks).

(** *** The search for a split inside [_fit_node] (lines 91 to 112) *)

(** The four local variables [feature_best, threshold_best, gini_best,
    split] of [_fit_node]. *)
Record search : Type := Search {
  feature_best : option nat;
  threshold_best : option Q;
  gini_best : option Q;
  split : option (list bool) }.

Definition search_init : search := Search None None None None.

Definition is_none (v : pyval) : bool :=
  match v with
  | PNone => true
  | _ => false
  end.

Definition Qmaxb (a b : Q) : Q := if Qltb a b then b else a.

(** [v.max()]: only a numpy array has the method, and an empty array has
    no maximum. *)
Definition array_max (v : pyval) : result Q :=
  match v with
  | PArray (x :: l) => Ok (fold_left Qmaxb l x)
  | PArray [] => Raise (ValueError "zero-size array to reduction operation")
  | _ => Raise AttributeError
  end.

(** [np.argmax(v)]; a scalar is a zero-dimensional array, whose argmax is 0. *)
Definition py_argmax (v : pyval) : result nat :=
  match v with
  | PArray l | PList l => np_argmax l
  | _ => Ok 0
  end.

(** [v[i]] *)
Definition subscript (v : pyval) (i : nat) : result Q :=
  match v with
  | PArray l | PList l => getitem l i
  | _ => Raise TypeError
  end.

(** Lines 93 to 105: the orderable vector of one column. *)
Definition feature_vector_of (feature_types : list string) (sub_X : matrix)
  (sub_y : list Z) (feature : nat) : result (list Q) :=
  feature_type <- getitem feature_types feature ;;
  if String.eqb feature_type "real" then Ok (column sub_X feature)
  else if String.eqb feature_type "categorical"
       then categorical_feature_vector (column sub_X feature) sub_y
       else Raise (ValueError "Unknown feature type").

(** Lines 108 to 112: the update of the incumbent. *)
Definition track_best (st : search) (feature : nat) (feature_vector : list Q)
  (thresholds ginis : pyval) : result search :=
  better <-
    match gini_best st with
    | None => Ok true
    | Some gb =>
        if is_none ginis then Ok false
        else (m <- array_max ginis ;; Ok (Qltb gb m))
    end ;;
  if (better : bool) then
    m <- array_max ginis ;;
    idx <- py_argmax ginis ;;
    tb <- subscript thresholds idx ;;
    Ok (Search (Some feature) (Some tb) (Some m)
          (Some (map (fun x => Qltb x tb) feature_vector)))
  else Ok st.

(** The body of the loop [for feature in range(sub_X.shape[1])]. *)
Definition search_step (feature_types : list string) (sub_X : matrix)
  (sub_y : list Z) (st : search) (feature : nat) : result search :=
  feature_vector <- feature_vector_of feature_types sub_X sub_y feature ;;
  returned <- find_best_split feature_vector sub_y ;;
  '(thresholds, ginis) <- unpack2 returned ;;
  track_best st feature feature_vector thresholds ginis.

Fixpoint search_loop (feature_types : list string) (sub_X : matrix)
  (sub_y : list Z) (st : search) (range : list nat) : result search :=
  match range with
  | [] => Ok st
  | feature :: range' =>
      st' <- search_step feature_types sub_X sub_y st feature ;;
      search_loop feature_types sub_X sub_y st' range'
  end.

(** [len(set(sub_y))]: the distinct labels. *)
Definition py_set (l : list Z) : list Z := nodup Z.eq_dec l.

(** [Counter(sub_y).most_common(1)]: the first entry with the largest
    count, or the empty list for an empty counter. *)
Fixpoint first_max (best : Z * nat) (c : counter Z) : Z * nat :=
  match c with
  | [] => best
  | (k, n) :: c' =>
      if Nat.ltb (snd best) n then first_max (k, n) c' else first_max best c'
  end.

Definition most_common1 (c : counter Z) : list (Z * nat) :=
  match c with
  | [] => []
  | x :: c' => [first_max x c']
  end.

Definition set_terminal (n : node) (cls : Z) : node :=
  Node (Some "terminal"%string) (Some cls) (feature_split n) (threshold n)
    (left_child n) (right_child n).

(** *** [_fit_node]

    The function mutates the dict [node]; here it returns the dict after the
    call together with the outcome, so that what was written before an
    exception stays visible.  [fuel] bounds the depth of the recursion, as
    the interpreter's recursion limit does. *)
Fixpoint _fit_node (fuel : nat) (feature_types : list string)
  (sub_X : matrix) (sub_y : list Z) (nd : node) : node * result unit :=
  match fuel with
  | O => (nd, Raise RecursionError)
  | S fuel' =>
      if Nat.eqb (length (py_set sub_y)) 1 then
        let nd1 := Node (Some "terminal"%string) (nclass nd) (feature_split nd)
                     (threshold nd) (left_child nd) (right_child nd) in
        match getitem sub_y 0 with
        | Ok y0 => (set_terminal nd y0, Ok tt)
        | Raise e => (nd1, Raise e)
        end
      else
        match search_loop feature_types sub_X sub_y search_init
                (seq 0 (ncols sub_X)) with
        | Raise e => (nd, Raise e)
        | Ok st =>
            match gini_best st with
            | None =>
                let nd1 := Node (Some "terminal"%string) (nclass nd)
                             (feature_split nd) (threshold nd)
                             (left_child nd) (right_child nd) in
                match getitem (most_common1 (Counter Z.eqb sub_y)) 0 with
                | Ok (cls, _) => (set_terminal nd cls, Ok tt)
                | Raise e => (nd1, Raise e)
                end
            | Some _ =>
                let nd1 := Node (Some "nonterminal"%string) (nclass nd)
                             (feature_best st) (threshold_best st)
                             (Some empty_node) (Some empty_node) in
                match split st with
                | None => (nd1, Raise TypeError)
                | Some mask =>
                    match select_rows sub_X mask, mask_select sub_y mask with
                    | Ok lX, Ok ly =>
                        let (lc, r1) :=
                          _fit_node fuel' feature_types lX ly empty_node in
                        let nd2 := Node (ntype nd1) (nclass nd1)
                                     (feature_split nd1) (threshold nd1)
                                     (Some lc) (right_child nd1) in
                        match r1 with
                        | Raise e => (nd2, Raise e)
                        | Ok _ =>
                            match select_rows sub_X (map negb mask),
                                  mask_select sub_y (map negb mask) with
                            | Ok rX, Ok ry =>
                                let (rc, r2) :=
                                  _fit_node fuel' feature_types rX ry
                                    empty_node in
                                (Node (ntype nd2) (nclass nd2)
                                   (feature_split nd2) (threshold nd2)
                                   (left_child nd2) (Some rc), r2)
                            | Raise e, _ | _, Raise e => (nd2, Raise e)
                            end
                        end
                    | Raise e, _ | _, Raise e => (nd1, Raise e)
                    end
                end
            end
        end
  end.

(** *** [_predict_node] *)

(** [int(v)]: truncation towards zero. *)
Definition py_int (v : Q) : Z := Z.quot (Qnum v) (Z.pos (Qden v)).

Fixpoint _predict_node (feature_types : list string) (x : list Q) (nd : node)
  : result Z :=
  match nd with
  | Node ty cls fs th lc rc =>
      t <- dict_get ty ;;
      if String.eqb t "terminal" then dict_get cls
      else
        f <- dict_get fs ;;
        feature_value <- getitem x f ;;
        kind <- getitem feature_types f ;;
        if String.eqb kind "real" then
          thr <- dict_get th ;;
          if Qltb feature_value thr
          then match lc with
               | Some c => _predict_node feature_types x c
               | None => Raise KeyError
               end
          else match rc with
               | Some c => _predict_node feature_types x c
               | None => Raise KeyError
               end
        else if String.eqb kind "categorical" then
          let category_index := py_int feature_value in
          thr <- dict_get th ;;
          if Qltb (inject_Z category_index) thr
          then match lc with
               | Some c => _predict_node feature_types x c
               | None => Raise KeyError
               end
          else match rc with
               | Some c => _predict_node feature_types x c
               | None => Raise KeyError
               end
        else Raise (ValueError "Unknown feature type")
  end.

(** *** [fit] and [predict] *)

Definition fit (fuel : nat) (self : DecisionTree) (X : matrix) (y : list Z)
  : DecisionTree * result unit :=
  let (tree', outcome) := _fit_node fuel (_feature_types self) X y (_tree self) in
  (Build_DecisionTree tree' (_feature_types self) (_max_depth self)
     (_min_samples_split self) (_min_samples_leaf self), outcome).

Definition predict (self : DecisionTree) (X : list (list Q)) : result (list Z) :=
  map_result (fun x => _predict_node (_feature_types self) x (_tree self)) X.

(* ================================================================= *)
(** ** The properties in the words of the specification *)

Section Classes.
Variable K : Type.
Variable eqb : K -> K -> bool.

(** How many entries of [l] are the value [c]. *)
Definition occurrences (c : K) (l : list K) : nat :=
  length (filter (eqb c) l).

(** The distinct values of [l], each once, in the order of their first
    occurrence. *)
Fixpoint classes_of (l : list K) : list K :=
  match l with
  | [] => []
  | c :: l' => c :: filter (fun d => negb (eqb c d)) (classes_of l')
  end.
End Classes.

(** The midpoints of the adjacent pairs of a list. *)
Fixpoint adjacent_midpoints (u : list Q) : list Q :=
  match u with
  | [] => []
  | a :: u' =>
      match u' with
      | [] => []
      | b :: _ => ((a + b) / 2)%Q :: adjacent_midpoints u'
      end
  end.

(** The labels of the samples whose value is strictly less than the
    threshold, and the labels of the others. *)
Definition left_labels (fv : list Q) (tv : list Z) (t : Q) : list Z :=
  map snd (filter (fun p => Qltb (fst p) t) (combine fv tv)).

Definition right_labels (fv : list Q) (tv : list Z) (t : Q) : list Z :=
  map snd (filter (fun p => negb (Qltb (fst p) t)) (combine fv tv)).

Definition is_empty {A : Type} (l : list A) : bool :=
  match l with
  | [] => true
  | _ :: _ => false
  end.

(** A threshold is kept when neither side of the partition is empty. *)
Definition retained (fv : list Q) (t : Q) : bool :=
  negb (is_empty (filter (fun x => Qltb x t) fv))
  && negb (is_empty (filter (fun x => negb (Qltb x t)) fv)).

Definition spec_thresholds (fv : list Q) : list Q :=
  filter (retained fv) (adjacent_midpoints (np_unique fv)).

(** Gini impurity: 1 minus the sum over the classes of the squared fraction
    of the class within the partition. *)
Definition impurity (part : list Z) : Q :=
  (1 - Qsum (map (fun c => (Q_of_nat (occurrences Z.eqb c part)
                            / Q_of_nat (length part)) ^ 2)
               (classes_of Z.eqb part)))%Q.

(** The size-weighted sum of the impurities of the two sides. *)
Definition weighted_gini (fv : list Q) (tv : list Z) (t : Q) : Q :=
  let l := left_labels fv tv t in
  let r := right_labels fv tv t in
  ((Q_of_nat (length l) / Q_of_nat (length tv)) * impurity l
   + (Q_of_nat (length r) / Q_of_nat (length tv)) * impurity r)%Q.

(** The entries of the column on the rows of label 1, the reference class. *)
Definition clicked_values (col : list Q) (sub_y : list Z) : list Q :=
  map snd (filter (fun p => Z.eqb (fst p) 1) (combine sub_y col)).

(** The statistic of a category: its number of occurrences in the column
    over its number of occurrences among the rows of label 1, and 0 when it
    does not occur among those rows. *)
Definition statistic (col : list Q) (sub_y : list Z) (cat : Q) : Q :=
  match occurrences Qeq_bool cat (clicked_values col sub_y) with
  | O => 0%Q
  | S _ as clicks => (Q_of_nat (occurrences Qeq_bool cat col) / Q_of_nat clicks)%Q
  end.

(** All labels of [y] are the label [l], and there is at least one. *)
Definition all_labels (l : Z) (y : list Z) : Prop :=
  y <> [] /\ Forall (fun v => v = l) y.

Definition valid_kind (t : string) : Prop :=
  t = "real"%string \/ t = "categorical"%string.

(** A terminal node holding the class [l]. *)
Definition is_terminal (nd : node) (l : Z) : Prop :=
  ntype nd = Some "terminal"%string /\ nclass nd = Some l.

(** The classes held by the terminal nodes below a node. *)
Fixpoint leaf_classes (nd : node) : list Z :=
  match nd with
  | Node ty cls fs th lc rc =>
      match ty with
      | Some t =>
          if String.eqb t "terminal"
          then match cls with
               | Some c => [c]
               | None => []
               end
          else match lc with
               | Some l => leaf_classes l
               | None => []
               end
               ++ match rc with
                  | Some r => leaf_classes r
                  | None => []
                  end
      | None => []
      end
  end.

(** A tree that [_predict_node] can walk for rows of [width] entries: a
    terminal node has a class; any other node has a feature index inside the
    row, whose tag is a valid kind, a threshold and two children that can
    be walked. *)
Fixpoint well_formed (feature_types : list string) (width : nat) (nd : node)
  : Prop :=
  match nd with
  | Node (Some t) cls fs th lc rc =>
      if String.eqb t "terminal" then cls <> None
      else match fs, th, lc, rc with
           | Some f, Some _, Some l, Some r =>
               f < width
               /\ (exists kind,
                     nth_error feature_types f = Some kind /\ valid_kind kind)
               /\ well_formed feature_types width l
               /\ well_formed feature_types width r
           | _, _, _, _ => False
           end
  | _ => False
  end.

(** The label [c] is the first most frequent label of [y]: in the order of
    first occurrence, the labels before it are strictly less frequent and
    the labels after it are not more frequent. *)
Definition first_majority (c : Z) (y : list Z) : Prop :=
  exists before after,
    classes_of Z.eqb y = before ++ c :: after
    /\ Forall (fun d => occurrences Z.eqb d y < occurrences Z.eqb c y) before
    /\ Forall (fun d => occurrences Z.eqb d y <= occurrences Z.eqb c y) after.

(** The object after a call that left the tree [nd]. *)
Definition with_tree (self : DecisionTree) (nd : node) : DecisionTree :=
  Build_DecisionTree nd (_feature_types self) (_max_depth self)
    (_min_samples_split self) (_min_samples_leaf self).

(** What [find_best_split] returns when it proposes no threshold. *)
Definition no_split : pytuple := [PList []; PList []; PNone; PNone].

Definition unpack_error : exn :=
  ValueError "too many values to unpack (expected 2)".

Unset Implicit Arguments.

(* ================================================================= *)
(** ** Comparisons on [Q] *)

Lemma Qltb_lt (x y : Q) : Qltb x y = true <-> (x < y)%Q.
Proof.
  unfold Qltb. rewrite negb_true_iff. split; intro H.
  - apply Qnot_le_lt. intro Hle. apply Qle_bool_iff in Hle. congruence.
  - destruct (Qle_bool y x) eqn:E; [|reflexivity].
    apply Qle_bool_iff in E. exfalso. exact (Qle_not_lt _ _ E H).
Qed.

Lemma Qltb_ge (x y : Q) : Qltb x y = false <-> (y <= x)%Q.
Proof.
  unfold Qltb. rewrite negb_false_iff. apply Qle_bool_iff.
Qed.


(* ================================================================= *)
(** ** [np.unique] *)

Lemma insert_unique_in (x y : Q) (l : list Q) :
  In y (insert_unique x l) -> y = x \/ In y l.
Proof.
  induction l as [|z l IH]; simpl.
  - intros [H|[]]; auto.
  - destruct (x ?= z)%Q; simpl; intros H.
    + auto.
    + destruct H as [H|H]; auto.
    + destruct H as [H|H]; [auto|]. destruct (IH H); auto.
Qed.

Lemma np_unique_in (y : Q) (v : list Q) : In y (np_unique v) -> In y v.
Proof.
  induction v as [|x v IH]; simpl; [tauto|].
  intro H. apply insert_unique_in in H. destruct H; auto.
Qed.





Lemma np_unique_constant (v : list Q) :
  (forall x y, In x v -> In y v -> (x == y)%Q) -> length (np_unique v) <= 1.
Proof.
  induction v as [|a v IH]; intros Hc; simpl; [lia|].
  assert (Hv : length (np_unique v) <= 1).
  { apply IH. intros x y Hx Hy. apply Hc; simpl; auto. }
  destruct (np_unique v) as [|b [|c u]] eqn:E; simpl in *; try lia.
  assert (Hb : In b v) by (apply np_unique_in; rewrite E; simpl; auto).
  assert (Hab : (a == b)%Q) by (apply Hc; simpl; auto).
  apply Qeq_alt in Hab. rewrite Hab. simpl. lia.
Qed.

(* ================================================================= *)
(** ** [Counter] counts occurrences, in the order of first occurrence *)

Section CounterFacts.
Variable K : Type.
Variable eqb : K -> K -> bool.
Hypothesis eqb_refl : forall x, eqb x x = true.
Hypothesis eqb_sym : forall x y, eqb x y = eqb y x.
Hypothesis eqb_trans :
  forall x y z, eqb x y = true -> eqb y z = true -> eqb x z = true.

Lemma eqb_false_l (c d x : K) :
  eqb c x = true -> eqb c d = false -> eqb d x = false.
Proof.
  intros Hcx Hcd. destruct (eqb d x) eqn:E; [|reflexivity].
  rewrite <- Hcd. symmetry. apply eqb_trans with x; [exact Hcx|].
  rewrite eqb_sym. exact E.
Qed.

Lemma Counter_snoc (l : list K) (x : K) :
  Counter eqb (l ++ [x]) = counter_add eqb x (Counter eqb l).
Proof. unfold Counter. rewrite fold_left_app. reflexivity. Qed.

Lemma occurrences_snoc (c x : K) (l : list K) :
  occurrences eqb c (l ++ [x])
  = occurrences eqb c l + (if eqb c x then 1 else 0).
Proof.
  unfold occurrences. rewrite filter_app, length_app. simpl.
  destruct (eqb c x); reflexivity.
Qed.

Lemma classes_of_snoc (l : list K) (x : K) :
  classes_of eqb (l ++ [x])
  = if existsb (fun d => eqb d x) l then classes_of eqb l
    else classes_of eqb l ++ [x].
Proof.
  induction l as [|c l IH]; simpl; [reflexivity|].
  rewrite IH. destruct (existsb (fun d => eqb d x) l).
  - rewrite orb_true_r. reflexivity.
  - rewrite orb_false_r, filter_app. simpl.
    destruct (eqb c x); simpl; [rewrite app_nil_r|]; reflexivity.
Qed.

Lemma existsb_classes_of (l : list K) (x : K) :
  existsb (fun d => eqb d x) (classes_of eqb l)
  = existsb (fun d => eqb d x) l.
Proof.
  induction l as [|c l IH]; simpl; [reflexivity|].
  destruct (eqb c x) eqn:Ecx; simpl; [reflexivity|].
  rewrite <- IH. clear IH.
  induction (classes_of eqb l) as [|d ds IHd]; simpl; [reflexivity|].
  destruct (eqb c d) eqn:Ecd; simpl.
  - assert (Hdx : eqb d x = false).
    { destruct (eqb d x) eqn:E; [|reflexivity].
      rewrite <- Ecx. symmetry. apply eqb_trans with d; assumption. }
    rewrite Hdx. exact IHd.
  - rewrite IHd. reflexivity.
Qed.

Lemma classes_of_distinct (l : list K) :
  ForallOrdPairs (fun a b => eqb a b = false) (classes_of eqb l).
Proof.
  induction l as [|c l IH]; simpl; [constructor|].
  constructor.
  - apply Forall_forall. intros d Hd. apply filter_In in Hd.
    destruct Hd as [_ Hd]. apply negb_true_iff in Hd. exact Hd.
  - induction IH as [|d ds Hd Hds IHds]; simpl; [constructor|].
    destruct (negb (eqb c d)); [|exact IHds].
    constructor; [|exact IHds].
    apply Forall_forall. intros e He. apply filter_In in He.
    rewrite Forall_forall in Hd. apply Hd. tauto.
Qed.

Lemma counter_add_tabulated (g : K -> nat) (ks : list K) (x : K) :
  ForallOrdPairs (fun a b => eqb a b = false) ks ->
  counter_add eqb x (map (fun c => (c, g c)) ks)
  = if existsb (fun d => eqb d x) ks
    then map (fun c => (c, g c + (if eqb c x then 1 else 0))) ks
    else map (fun c => (c, g c)) ks ++ [(x, 1)].
Proof.
  induction 1 as [|c ks Hc Hks IH]; simpl; [reflexivity|].
  destruct (eqb c x) eqn:Ecx; simpl.
  - rewrite Nat.add_1_r. f_equal.
    apply map_ext_in. intros d Hd.
    rewrite Forall_forall in Hc.
    rewrite (@eqb_false_l c d x Ecx (Hc d Hd)), Nat.add_0_r. reflexivity.
  - rewrite IH, Nat.add_0_r.
    destruct (existsb (fun d => eqb d x) ks); reflexivity.
Qed.

Lemma occurrences_absent (x : K) (l : list K) :
  existsb (fun d => eqb d x) l = false -> occurrences eqb x l = 0.
Proof.
  unfold occurrences. induction l as [|d l IH]; simpl; [reflexivity|].
  intro H. apply orb_false_iff in H. destruct H as [Hd Hl].
  rewrite eqb_sym, Hd. auto.
Qed.

(** The counter of a list tabulates the number of occurrences of each
    of its distinct values. *)
Lemma Counter_tabulates (l : list K) :
  Counter eqb l
  = map (fun c => (c, occurrences eqb c l)) (classes_of eqb l).
Proof.
  induction l as [|x l IH] using rev_ind; [reflexivity|].
  rewrite Counter_snoc, IH, classes_of_snoc.
  rewrite counter_add_tabulated by apply classes_of_distinct.
  rewrite existsb_classes_of.
  destruct (existsb (fun d => eqb d x) l) eqn:Ex.
  - apply map_ext. intro c. rewrite occurrences_snoc. reflexivity.
  - rewrite map_app. simpl. f_equal.
    + apply map_ext_in. intros c Hc. rewrite occurrences_snoc.
      assert (Hcx : eqb c x = false).
      { rewrite <- existsb_classes_of in Ex.
        destruct (eqb c x) eqn:E; [|reflexivity].
        rewrite <- Ex. symmetry. apply existsb_exists. eauto. }
      rewrite Hcx, Nat.add_0_r. reflexivity.
    + rewrite occurrences_snoc, eqb_refl, (@occurrences_absent x l Ex).
      reflexivity.
Qed.

Lemma occurrences_equiv (x y : K) (l : list K) :
  eqb x y = true -> occurrences eqb x l = occurrences eqb y l.
Proof.
  intro H. unfold occurrences. f_equal. apply filter_ext. intro d.
  destruct (eqb y d) eqn:E.
  - apply eqb_trans with y; assumption.
  - destruct (eqb x d) eqn:E'; [|reflexivity].
    rewrite <- E. symmetry. apply eqb_trans with x; [|exact E'].
    rewrite eqb_sym. exact H.
Qed.

Lemma counter_mem_tabulated (g : K -> nat) (ks : list K) (x : K) :
  counter_mem eqb x (map (fun c => (c, g c)) ks)
  = existsb (fun d => eqb d x) ks.
Proof.
  induction ks as [|c ks IH]; simpl; [reflexivity|]. rewrite IH. reflexivity.
Qed.

Lemma counter_mem_Counter (x : K) (l : list K) :
  counter_mem eqb x (Counter eqb l) = existsb (fun d => eqb d x) l.
Proof.
  rewrite Counter_tabulates, counter_mem_tabulated. apply existsb_classes_of.
Qed.

Lemma counter_get_Counter (x : K) (l : list K) :
  counter_get eqb x (Counter eqb l) = occurrences eqb x l.
Proof.
  rewrite Counter_tabulates.
  destruct (existsb (fun d => eqb d x) l) eqn:Ex.
  - rewrite <- existsb_classes_of in Ex.
    induction (classes_of eqb l) as [|c ks IH]; simpl in *; [discriminate|].
    destruct (eqb c x) eqn:Ecx; [apply occurrences_equiv; exact Ecx|].
    apply IH. exact Ex.
  - rewrite (@occurrences_absent x l Ex).
    rewrite <- existsb_classes_of in Ex.
    induction (classes_of eqb l) as [|c ks IH]; simpl in *; [reflexivity|].
    apply orb_false_iff in Ex. destruct Ex as [Ecx Eks].
    rewrite Ecx. apply IH. exact Eks.
Qed.

Lemma occurrences_present (x : K) (l : list K) :
  existsb (fun d => eqb d x) l = true -> 0 < occurrences eqb x l.
Proof.
  unfold occurrences. induction l as [|d l IH]; simpl; [discriminate|].
  rewrite (eqb_sym x d). destruct (eqb d x); simpl; [lia|auto].
Qed.

Lemma keys_Counter (l : list K) : keys (Counter eqb l) = classes_of eqb l.
Proof.
  rewrite Counter_tabulates. unfold keys. rewrite map_map. simpl.
  apply map_id.
Qed.

Lemma classes_of_complete (x : K) (l : list K) :
  In x l -> exists c, In c (classes_of eqb l) /\ eqb c x = true.
Proof.
  intro Hx.
  assert (H : existsb (fun d => eqb d x) (classes_of eqb l) = true).
  { rewrite existsb_classes_of. apply existsb_exists. eauto. }
  apply existsb_exists in H. exact H.
Qed.
End CounterFacts.

Lemma Zeqb_trans (x y z : Z) :
  Z.eqb x y = true -> Z.eqb y z = true -> Z.eqb x z = true.
Proof. rewrite !Z.eqb_eq. congruence. Qed.

Lemma Qeqb_refl (x : Q) : Qeq_bool x x = true.
Proof. apply Qeq_bool_iff. reflexivity. Qed.

Lemma Qeqb_sym (x y : Q) : Qeq_bool x y = Qeq_bool y x.
Proof.
  destruct (Qeq_bool x y) eqn:E1, (Qeq_bool y x) eqn:E2; try reflexivity.
  - apply Qeq_bool_iff in E1. symmetry in E1. apply Qeq_bool_iff in E1.
    congruence.
  - apply Qeq_bool_iff in E2. symmetry in E2. apply Qeq_bool_iff in E2.
    congruence.
Qed.

Lemma Qeqb_trans (x y z : Q) :
  Qeq_bool x y = true -> Qeq_bool y z = true -> Qeq_bool x z = true.
Proof.
  rewrite !Qeq_bool_iff. intros H1 H2. rewrite H1. exact H2.
Qed.

Lemma Counter_Z_tabulates (l : list Z) :
  Counter Z.eqb l
  = map (fun c => (c, occurrences Z.eqb c l)) (classes_of Z.eqb l).
Proof.
  apply Counter_tabulates;
    [exact Z.eqb_refl | exact Z.eqb_sym | exact Zeqb_trans].
Qed.

(* ================================================================= *)
(** ** Boolean masks *)

Lemma np_any_map {A : Type} (f : A -> bool) (v : list A) :
  np_any (map f v) = negb (is_empty (filter f v)).
Proof.
  unfold np_any. induction v as [|a v IH]; simpl; [reflexivity|].
  destruct (f a); simpl; [reflexivity|exact IH].
Qed.

Lemma mask_sum_map {A : Type} (f : A -> bool) (v : list A) :
  mask_sum (map f v) = length (filter f v).
Proof.
  unfold mask_sum. induction v as [|a v IH]; simpl; [reflexivity|].
  destruct (f a); simpl; [f_equal|]; exact IH.
Qed.

Lemma select_combine {A B : Type} (f : B -> bool) (w : list B) (v : list A) :
  length w = length v ->
  map fst (filter snd (combine v (map f w)))
  = map snd (filter (fun p => f (fst p)) (combine w v)).
Proof.
  revert v. induction w as [|b w IH]; intros [|a v] H; simpl in *;
    try discriminate; [reflexivity|].
  destruct (f b); simpl; [f_equal|]; apply IH; lia.
Qed.

Lemma mask_select_map {A B : Type} (f : B -> bool) (w : list B) (v : list A) :
  length w = length v ->
  mask_select v (map f w)
  = Ok (map snd (filter (fun p => f (fst p)) (combine w v))).
Proof.
  intro H. unfold mask_select. rewrite length_map, <- H, Nat.eqb_refl.
  rewrite select_combine by exact H. reflexivity.
Qed.


Lemma filter_fst_length {A B : Type} (f : B -> bool) (w : list B) (v : list A) :
  length w = length v ->
  length (filter (fun p => f (fst p)) (combine w v)) = length (filter f w).
Proof.
  revert v. induction w as [|b w IH]; intros [|a v] H; simpl in *;
    try discriminate; [reflexivity|].
  destruct (f b); simpl; [f_equal|]; apply IH; lia.
Qed.

(* ================================================================= *)
(** ** The loop of [find_best_split] *)

Lemma gini_of_Counter (part : list Z) (size : nat) :
  size = length part -> gini_of (Counter Z.eqb part) size = impurity part.
Proof.
  intros ->. unfold gini_of, impurity, values.
  rewrite Counter_Z_tabulates, !map_map. reflexivity.
Qed.

Lemma split_step_spec (fv : list Q) (tv : list Z) (u : list Q)
  (acc : list Q * list Q) (i : nat) :
  length fv = length tv ->
  let t := ((nth i u 0 + nth (i + 1) u 0) / 2)%Q in
  split_step fv tv u (length tv) acc i
  = Ok (if retained fv t
        then (fst acc ++ [t], snd acc ++ [weighted_gini fv tv t])
        else acc).
Proof.
  intros Hlen t. unfold split_step. fold t.
  rewrite map_map, !np_any_map. fold (retained fv t).
  destruct (retained fv t); [|reflexivity].
  rewrite (mask_select_map (fun x => Qltb x t)) by exact Hlen.
  rewrite (mask_select_map (fun x => negb (Qltb x t))) by exact Hlen.
  simpl. fold (left_labels fv tv t). fold (right_labels fv tv t).
  rewrite !mask_sum_map.
  assert (Hl : length (filter (fun x => Qltb x t) fv)
               = length (left_labels fv tv t)).
  { unfold left_labels. rewrite length_map.
    symmetry. apply (filter_fst_length (fun x => Qltb x t)). exact Hlen. }
  assert (Hr : length (filter (fun x => negb (Qltb x t)) fv)
               = length (right_labels fv tv t)).
  { unfold right_labels. rewrite length_map.
    symmetry. apply (filter_fst_length (fun x => negb (Qltb x t))). exact Hlen. }
  rewrite Hl, Hr, !gini_of_Counter by reflexivity.
  reflexivity.
Qed.

Lemma split_loop_spec (fv : list Q) (tv : list Z) (u : list Q)
  (range : list nat) :
  length fv = length tv ->
  forall acc,
    let ts := filter (retained fv)
                (map (fun i => ((nth i u 0 + nth (i + 1) u 0) / 2)%Q) range) in
    split_loop fv tv u (length tv) acc range
    = Ok (fst acc ++ ts, snd acc ++ map (weighted_gini fv tv) ts).
Proof.
  intro Hlen. induction range as [|i range IH]; intros acc; simpl.
  - rewrite !app_nil_r. destruct acc; reflexivity.
  - rewrite split_step_spec by exact Hlen. simpl.
    destruct (retained fv ((nth i u 0 + nth (i + 1) u 0) / 2)%Q); simpl.
    + rewrite IH. simpl. rewrite <- !app_assoc. reflexivity.
    + apply IH.
Qed.

Lemma adjacent_midpoints_indexed (u : list Q) :
  map (fun i => ((nth i u 0 + nth (i + 1) u 0) / 2)%Q) (seq 0 (length u - 1))
  = adjacent_midpoints u.
Proof.
  induction u as [|a u IH]; [reflexivity|].
  destruct u as [|b u]; [reflexivity|].
  replace (length (a :: b :: u) - 1) with (S (length (b :: u) - 1))
    by (simpl; lia).
  rewrite <- cons_seq, <- seq_shift.
  change (adjacent_midpoints (a :: b :: u))
    with (((a + b) / 2)%Q :: adjacent_midpoints (b :: u)).
  rewrite <- IH, map_cons, map_map. reflexivity.
Qed.

(* ================================================================= *)
(** ** [np.argmin] returns the index of a least element *)

Lemma argmin_from_spec (l : list Q) :
  forall pre best besti,
    nth_error pre besti = Some best ->
    Forall (fun x => (best <= x)%Q) pre ->
    exists m,
      nth_error (pre ++ l) (argmin_from best besti (length pre) l) = Some m
      /\ Forall (fun x => (m <= x)%Q) (pre ++ l).
Proof.
  induction l as [|x l IH]; intros pre best besti Hn Hall; simpl.
  - rewrite app_nil_r. eauto.
  - replace (pre ++ x :: l) with ((pre ++ [x]) ++ l)
      by (rewrite <- app_assoc; reflexivity).
    replace (S (length pre)) with (length (pre ++ [x]))
      by (rewrite length_app; simpl; lia).
    destruct (Qltb x best) eqn:E.
    + apply Qltb_lt in E. apply IH.
      * rewrite nth_error_app2 by lia.
        rewrite Nat.sub_diag. reflexivity.
      * apply Forall_app. split.
        -- eapply Forall_impl; [|exact Hall]. intros w Hw.
           apply Qlt_le_weak. eapply Qlt_le_trans; eauto.
        -- constructor; [apply Qle_refl|constructor].
    + apply Qltb_ge in E. apply IH.
      * rewrite nth_error_app1; [exact Hn|].
        apply nth_error_Some. congruence.
      * apply Forall_app. split; [exact Hall|].
        constructor; [exact E|constructor].
Qed.

Lemma np_argmin_spec (x : Q) (l : list Q) :
  exists i m,
    np_argmin (x :: l) = Ok i
    /\ nth_error (x :: l) i = Some m
    /\ Forall (fun s => (m <= s)%Q) (x :: l).
Proof.
  destruct (argmin_from_spec l [x] x 0) as [m [Hm Hall]].
  - reflexivity.
  - constructor; [apply Qle_refl|constructor].
  - exists (argmin_from x 0 1 l), m. simpl in *. auto.
Qed.

(* ================================================================= *)
(** ** The shape of what [find_best_split] returns *)

Lemma split_step_lengths fv tv u total acc i acc' :
  split_step fv tv u total acc i = Ok acc' ->
  length (fst acc) = length (snd acc) ->
  length (fst acc') = length (snd acc').
Proof.
  unfold split_step.
  destruct (np_any _ && np_any _); [|intros [= <-]; auto].
  destruct (mask_select tv _); [|discriminate]. simpl.
  destruct (mask_select tv _); [|discriminate]. simpl.
  intros [= <-] H. simpl. rewrite !length_app, H. reflexivity.
Qed.

Lemma split_loop_lengths fv tv u total range :
  forall acc acc',
    split_loop fv tv u total acc range = Ok acc' ->
    length (fst acc) = length (snd acc) ->
    length (fst acc') = length (snd acc').
Proof.
  induction range as [|i range IH]; intros acc acc'; simpl.
  - intros [= <-]; auto.
  - destruct (split_step fv tv u total acc i) as [acc1|] eqn:E;
      [|discriminate]. simpl.
    intros H Hl. eapply IH; [exact H|].
    eapply split_step_lengths; eauto.
Qed.

Lemma find_best_split_shape (fv : list Q) (tv : list Z) (t : pytuple) :
  find_best_split fv tv = Ok t ->
  t = no_split
  \/ exists ths gs i th g,
      t = [PArray ths; PArray gs; PFloat th; PFloat g]
      /\ gs <> [] /\ length ths = length gs
      /\ nth_error ths i = Some th /\ nth_error gs i = Some g
      /\ Forall (fun s => (g <= s)%Q) gs.
Proof.
  unfold find_best_split.
  destruct (Nat.ltb _ 2); [intros [= <-]; left; reflexivity|].
  destruct (split_loop _ _ _ _ _ _) as [[ths gs]|] eqn:E; [|discriminate].
  apply split_loop_lengths in E; [|reflexivity]. simpl in E. simpl bind.
  destruct gs as [|g0 gs]; [intros [= <-]; left; reflexivity|].
  destruct (np_argmin_spec g0 gs) as [i [m [Hi [Hm Hall]]]].
  rewrite Hi. simpl bind.
  assert (Hlt : i < length ths).
  { rewrite E. apply nth_error_Some. congruence. }
  apply nth_error_Some in Hlt.
  unfold getitem. destruct (nth_error ths i) as [th|] eqn:Hth; [|congruence].
  rewrite Hm. simpl. intros [= <-]. right.
  exists ths, (g0 :: gs), i, th, m. repeat split; auto. discriminate.
Qed.

Lemma find_best_split_four (fv : list Q) (tv : list Z) (t : pytuple) :
  find_best_split fv tv = Ok t -> length t = 4.
Proof.
  intro H. apply find_best_split_shape in H.
  destruct H as [->|[ths [gs [i [th [g [-> _]]]]]]]; reflexivity.
Qed.

Lemma find_best_split_matched (fv : list Q) (tv : list Z) :
  length fv = length tv ->
  exists t,
    find_best_split fv tv = Ok t
    /\ thresholds_of t = spec_thresholds fv
    /\ ginis_of t = map (weighted_gini fv tv) (spec_thresholds fv).
Proof.
  intro Hlen. unfold find_best_split.
  destruct (Nat.ltb_spec (length (np_unique fv)) 2) as [Hu|Hu].
  - exists no_split. split; [reflexivity|]. unfold spec_thresholds.
    destruct (np_unique fv) as [|a [|b u]]; simpl in *; try lia; auto.
  - rewrite split_loop_spec by exact Hlen.
    rewrite adjacent_midpoints_indexed. fold (spec_thresholds fv).
    cbn [fst snd app bind].
    destruct (spec_thresholds fv) as [|t0 ts]; [exists no_split; auto|].
    cbn [map].
    destruct (np_argmin_spec (weighted_gini fv tv t0)
                (map (weighted_gini fv tv) ts)) as [i [m [Hi [Hm _]]]].
    rewrite Hi. cbn [bind].
    assert (Hlt : i < length (t0 :: ts)).
    { replace (length (t0 :: ts))
        with (length (weighted_gini fv tv t0 :: map (weighted_gini fv tv) ts))
        by (simpl; rewrite length_map; reflexivity).
      apply nth_error_Some. congruence. }
    apply nth_error_Some in Hlt. unfold getitem.
    destruct (nth_error (t0 :: ts) i) as [th|]; [|congruence].
    rewrite Hm. cbn [bind]. eexists. split; [reflexivity|]. auto.
Qed.

(* ================================================================= *)
(** ** Order of the proposed thresholds *)







(* ================================================================= *)
(** ** Properties of [find_best_split] *)

(** C3: whenever [find_best_split] returns a non-empty sequence of scores,
    the best score it reports is an element of that sequence that is less
    than or equal to every element of it, and the best threshold it reports
    is the threshold at the same index, so its parallel score attains the
    minimum. *)
Theorem find_best_split_best_is_minimum (fv : list Q) (tv : list Z)
  (t : pytuple) :
  find_best_split fv tv = Ok t ->
  ginis_of t <> [] ->
  exists i th g,
    threshold_best_of t = Some th
    /\ gini_best_of t = Some g
    /\ nth_error (thresholds_of t) i = Some th
    /\ nth_error (ginis_of t) i = Some g
    /\ Forall (fun s => (g <= s)%Q) (ginis_of t).
Proof.
  intros H Hne. apply find_best_split_shape in H.
  destruct H as [->|[ths [gs [i [th [g [-> [_ [_ [Hth [Hg Hall]]]]]]]]]]].
  - exfalso. apply Hne. reflexivity.
  - exists i, th, g. repeat split; assumption.
Qed.

Lemma find_best_split_best_is_minimum_witness :
  exists t,
    find_best_split [1; 2; 3; 4]%Q [0; 0; 1; 1]%Z = Ok t
    /\ exists i th g,
        threshold_best_of t = Some th
        /\ gini_best_of t = Some g
        /\ nth_error (thresholds_of t) i = Some th
        /\ nth_error (ginis_of t) i = Some g
        /\ Forall (fun s => (g <= s)%Q) (ginis_of t).
Proof.
  eexists. split; [vm_compute; reflexivity|].
  apply (find_best_split_best_is_minimum [1; 2; 3; 4]%Q [0; 0; 1; 1]%Z);
    [vm_compute; reflexivity | discriminate].
Defined.



(** C5: for a feature vector and a label vector of the same length, the
    score returned for each retained threshold is the size-weighted sum of
    the Gini impurities of the labels on the two sides of the threshold;
    for the features 1, 1, 2, 2 with the labels 0, 0, 1, 1 the only
    threshold is 1.5, its score is 0, and no other candidate has a score
    that is not strictly greater. *)
Theorem find_best_split_scores (fv : list Q) (tv : list Z) :
  length fv = length tv ->
  exists t,
    find_best_split fv tv = Ok t
    /\ ginis_of t = map (weighted_gini fv tv) (thresholds_of t)
    /\ (fv = [1; 1; 2; 2]%Q -> tv = [0; 0; 1; 1]%Z ->
        exists g,
          thresholds_of t = [3 # 2]%Q /\ ginis_of t = [g] /\ (g == 0)%Q
          /\ forall i th s,
              nth_error (thresholds_of t) i = Some th ->
              nth_error (ginis_of t) i = Some s ->
              ~ (th == 3 # 2)%Q -> (g < s)%Q).
Proof.
  intro Hlen.
  destruct (find_best_split_matched fv tv Hlen) as [t [Ht [Hths Hgs]]].
  exists t. split; [exact Ht|]. split; [rewrite Hths; exact Hgs|].
  intros -> ->. rewrite Hgs, Hths.
  exists (weighted_gini [1; 1; 2; 2]%Q [0; 0; 1; 1]%Z (3 # 2)).
  split; [reflexivity|]. split; [reflexivity|]. split; [reflexivity|].
  intros i th s Hth _ Hne. exfalso. apply Hne.
  change (spec_thresholds [1; 1; 2; 2]%Q) with [3 # 2]%Q in Hth.
  destruct i as [|[|i]]; simpl in Hth; try discriminate.
  injection Hth as <-. reflexivity.
Qed.

Lemma find_best_split_scores_witness :
  exists t g,
    find_best_split [1; 1; 2; 2]%Q [0; 0; 1; 1]%Z = Ok t
    /\ ginis_of t = map (weighted_gini [1; 1; 2; 2]%Q [0; 0; 1; 1]%Z)
                      (thresholds_of t)
    /\ thresholds_of t = [3 # 2]%Q /\ ginis_of t = [g] /\ (g == 0)%Q.
Proof.
  destruct (find_best_split_scores [1; 1; 2; 2]%Q [0; 0; 1; 1]%Z eq_refl)
    as [t [H1 [H2 H3]]].
  destruct (H3 eq_refl eq_refl) as [g [H4 [H5 [H6 _]]]].
  exists t, g. repeat split; assumption.
Defined.

(** C6: when the feature vector has fewer than two distinct values, that is
    when any two of its entries are the same number, [find_best_split]
    returns empty threshold and score sequences and [None] for the best
    threshold and the best score, whatever the label vector, and raises
    nothing. *)
Theorem find_best_split_constant_feature (fv : list Q) (tv : list Z) :
  (forall x y, In x fv -> In y fv -> (x == y)%Q) ->
  find_best_split fv tv = Ok [PList []; PList []; PNone; PNone].
Proof.
  intro Hc. unfold find_best_split.
  assert (H := np_unique_constant fv Hc).
  destruct (Nat.ltb_spec (length (np_unique fv)) 2); [reflexivity|lia].
Qed.

Lemma find_best_split_constant_feature_witness :
  find_best_split [3; 6 # 2; 3]%Q [0; 1]%Z
  = Ok [PList []; PList []; PNone; PNone].
Proof.
  apply find_best_split_constant_feature.
  intros x y [<-|[<-|[<-|[]]]] [<-|[<-|[<-|[]]]]; reflexivity.
Defined.

(* ================================================================= *)
(** ** The categorical encoding *)

Lemma ratio_entry (col : list Q) (sub_y : list Z) (key : Q) :
  (if counter_mem Qeq_bool key (Counter Qeq_bool (clicked_values col sub_y))
   then py_div (counter_get Qeq_bool key (Counter Qeq_bool col))
          (counter_get Qeq_bool key
             (Counter Qeq_bool (clicked_values col sub_y)))
   else Ok 0%Q)
  = Ok (statistic col sub_y key).
Proof.
  rewrite (counter_mem_Counter Q Qeq_bool Qeqb_refl Qeqb_sym Qeqb_trans).
  rewrite !(counter_get_Counter Q Qeq_bool Qeqb_refl Qeqb_sym Qeqb_trans).
  unfold statistic.
  destruct (existsb _ (clicked_values col sub_y)) eqn:E.
  - apply (occurrences_present Q Qeq_bool Qeqb_sym) in E.
    destruct (occurrences Qeq_bool key (clicked_values col sub_y));
      [lia|reflexivity].
  - rewrite (occurrences_absent Q Qeq_bool Qeqb_sym _ _ E). reflexivity.
Qed.

Lemma ratio_of_spec (col : list Q) (sub_y : list Z) (ks : list Q) :
  ratio_of (Counter Qeq_bool col)
    (Counter Qeq_bool (clicked_values col sub_y)) ks
  = Ok (map (fun cat => (cat, statistic col sub_y cat)) ks).
Proof.
  induction ks as [|key ks IH]; simpl; [reflexivity|].
  rewrite ratio_entry, IH. reflexivity.
Qed.

Lemma insert_by_key_perm (x : Q * Q) (l : list (Q * Q)) :
  Permutation (insert_by_key x l) (x :: l).
Proof.
  induction l as [|y l IH]; simpl; [reflexivity|].
  destruct (Qle_bool (snd x) (snd y)); [reflexivity|].
  rewrite IH. apply perm_swap.
Qed.

Lemma sorted_by_key_perm (l : list (Q * Q)) : Permutation (sorted_by_key l) l.
Proof.
  induction l as [|x l IH]; simpl; [reflexivity|].
  rewrite insert_by_key_perm. constructor. exact IH.
Qed.

Lemma insert_by_key_sorted (x : Q * Q) (l : list (Q * Q)) :
  StronglySorted (fun a b => (snd a <= snd b)%Q) l ->
  StronglySorted (fun a b => (snd a <= snd b)%Q) (insert_by_key x l).
Proof.
  induction l as [|y l IH]; simpl; intro Hs; [repeat constructor|].
  inversion Hs as [|? ? Hl Hy]; subst.
  destruct (Qle_bool (snd x) (snd y)) eqn:E.
  - apply Qle_bool_iff in E. constructor; [exact Hs|].
    constructor; [exact E|].
    eapply Forall_impl; [|exact Hy]. intros w Hw.
    eapply Qle_trans; eauto.
  - constructor; [auto|].
    assert (Hyx : (snd y <= snd x)%Q).
    { apply Qlt_le_weak. apply Qnot_le_lt. intro H.
      apply Qle_bool_iff in H. congruence. }
    apply Forall_forall. intros w Hw.
    apply (Permutation_in _ (insert_by_key_perm x l)) in Hw.
    destruct Hw as [<-|Hw]; [exact Hyx|].
    rewrite Forall_forall in Hy. auto.
Qed.

Lemma sorted_by_key_sorted (l : list (Q * Q)) :
  StronglySorted (fun a b => (snd a <= snd b)%Q) (sorted_by_key l).
Proof.
  induction l as [|x l IH]; simpl; [constructor|].
  apply insert_by_key_sorted. exact IH.
Qed.

Lemma map_get_enumerate (x : Q) (cats : list (Q * Q)) :
  forall idx,
    (exists cat s, In (cat, s) cats /\ Qeq_bool cat x = true) ->
    exists r cat s,
      map_get x (enumerate_from idx cats) = Ok r
      /\ nth_error cats (r - idx) = Some (cat, s)
      /\ idx <= r
      /\ (cat == x)%Q.
Proof.
  induction cats as [|[c s0] cats IH]; intros idx [cat [s [Hin Heq]]];
    [destruct Hin|].
  simpl. destruct (Qeq_bool c x) eqn:E.
  - exists idx, c, s0. rewrite Nat.sub_diag. repeat split; auto.
    apply Qeq_bool_iff. exact E.
  - destruct Hin as [Hin|Hin]; [injection Hin as -> ->; congruence|].
    destruct (IH (S idx)) as [r [cat' [s' [Hr [Hn [Hle Hq]]]]]]; [eauto|].
    exists r, cat', s'. repeat split; auto; [|lia].
    replace (r - idx) with (S (r - S idx)) by lia. exact Hn.
Qed.

Lemma map_result_Forall2 {A B : Type} (f : A -> result B) (P : A -> B -> Prop)
  (l : list A) :
  (forall a, In a l -> exists b, f a = Ok b /\ P a b) ->
  exists bs, map_result f l = Ok bs /\ Forall2 P l bs.
Proof.
  induction l as [|a l IH]; intro H; simpl; [eauto|].
  destruct (H a) as [b [Hb Pb]]; [simpl; auto|].
  destruct IH as [bs [Hbs Pbs]]; [intros; apply H; simpl; auto|].
  rewrite Hb, Hbs. simpl. eauto.
Qed.

Lemma categorical_feature_vector_spec (col : list Q) (sub_y : list Z) :
  length col = length sub_y ->
  let sorted_categories :=
    sorted_by_key (map (fun cat => (cat, statistic col sub_y cat))
                     (classes_of Qeq_bool col)) in
  exists ranks,
    categorical_feature_vector col sub_y = Ok (map Q_of_nat ranks)
    /\ Forall2 (fun x r =>
                  exists cat,
                    nth_error sorted_categories r
                    = Some (cat, statistic col sub_y cat)
                    /\ (cat == x)%Q) col ranks.
Proof.
  intros Hlen sorted_categories. unfold categorical_feature_vector.
  rewrite (mask_select_map (fun y => Z.eqb y 1) sub_y col)
    by (symmetry; exact Hlen).
  fold (clicked_values col sub_y). cbn [bind].
  rewrite ratio_of_spec.
  rewrite (keys_Counter Q Qeq_bool Qeqb_refl Qeqb_sym Qeqb_trans).
  cbn [bind]. fold sorted_categories.
  destruct (map_result_Forall2
              (fun x => map_get x (enumerate_from 0 sorted_categories))
              (fun x r =>
                 exists cat,
                   nth_error sorted_categories r
                   = Some (cat, statistic col sub_y cat)
                   /\ (cat == x)%Q) col) as [ranks [Hr HF]].
  - intros x Hx.
    destruct (classes_of_complete Q Qeq_bool Qeqb_refl Qeqb_trans x col Hx) as [c [Hc Hcx]].
    destruct (map_get_enumerate x sorted_categories 0) as
      [r [cat [s [Hget [Hn [_ Hq]]]]]].
    + exists c, (statistic col sub_y c). split; [|exact Hcx].
      apply (Permutation_in _ (Permutation_sym (sorted_by_key_perm _))).
      apply in_map_iff. eauto.
    + exists r. split; [exact Hget|]. exists cat. split; [|exact Hq].
      rewrite Nat.sub_0_r in Hn. rewrite Hn. f_equal. f_equal.
      apply nth_error_In in Hn.
      apply (Permutation_in _ (sorted_by_key_perm _)) in Hn.
      apply in_map_iff in Hn. destruct Hn as [c' [[= -> <-] _]]. reflexivity.
  - exists ranks. rewrite Hr. cbn [bind]. auto.
Qed.

Example categorical_feature_vector_example :
  categorical_feature_vector [5; 7; 5; 9]%Q [1; 0; 0; 1]%Z
  = Ok [2; 0; 2; 1]%Q.
Proof. reflexivity. Qed.

(** C10: for a categorical column and a label vector of the same length,
    the encoding succeeds (no division by zero, no missing key): the
    distinct categories of the column, each paired with its statistic
    (occurrences in the column over occurrences among the rows of label 1,
    and 0 when there are none among those rows), are sorted ascending by the
    statistic, and every entry of the column is replaced by the index, from
    0, of its category in that sorted order. *)
Theorem categorical_ranks (col : list Q) (sub_y : list Z) :
  length col = length sub_y ->
  exists sorted_categories ranks,
    categorical_feature_vector col sub_y = Ok (map Q_of_nat ranks)
    /\ Permutation sorted_categories
         (map (fun cat => (cat, statistic col sub_y cat))
            (classes_of Qeq_bool col))
    /\ StronglySorted (fun a b => (snd a <= snd b)%Q) sorted_categories
    /\ Forall2 (fun x r =>
                  exists cat,
                    nth_error sorted_categories r
                    = Some (cat, statistic col sub_y cat)
                    /\ (cat == x)%Q) col ranks.
Proof.
  intro Hlen.
  destruct (categorical_feature_vector_spec col sub_y Hlen) as [ranks [H1 H2]].
  eexists. exists ranks. split; [exact H1|].
  split; [apply sorted_by_key_perm|].
  split; [apply sorted_by_key_sorted|exact H2].
Qed.

Lemma categorical_ranks_witness :
  exists sorted_categories ranks,
    categorical_feature_vector [5; 7; 5; 9]%Q [1; 0; 0; 1]%Z
    = Ok (map Q_of_nat ranks)
    /\ Permutation sorted_categories
         (map (fun cat => (cat, statistic [5; 7; 5; 9]%Q [1; 0; 0; 1]%Z cat))
            (classes_of Qeq_bool [5; 7; 5; 9]%Q))
    /\ StronglySorted (fun a b => (snd a <= snd b)%Q) sorted_categories
    /\ Forall2 (fun x r =>
                  exists cat,
                    nth_error sorted_categories r
                    = Some (cat, statistic [5; 7; 5; 9]%Q [1; 0; 0; 1]%Z cat)
                    /\ (cat == x)%Q) [5; 7; 5; 9]%Q ranks.
Proof.
  apply (categorical_ranks [5; 7; 5; 9]%Q [1; 0; 0; 1]%Z). reflexivity.
Defined.

(* ================================================================= *)
(** ** The purity test of [_fit_node] *)

Lemma all_labels_head (l : Z) (y : list Z) :
  all_labels l y -> getitem y 0 = Ok l.
Proof.
  intros [Hne Hall]. destruct y as [|a y]; [congruence|].
  inversion Hall; subst. reflexivity.
Qed.

Lemma py_set_all_labels (l : Z) (y : list Z) :
  all_labels l y -> length (py_set y) = 1.
Proof.
  intros [Hne Hall]. unfold py_set.
  induction y as [|a y IH]; [congruence|].
  inversion Hall as [|? ? Ha Hy]; subst. simpl.
  destruct y as [|b y]; [reflexivity|].
  destruct (in_dec Z.eq_dec l (b :: y)) as [_|Hn].
  - apply IH; [discriminate|exact Hy].
  - exfalso. apply Hn. inversion Hy; subst. simpl. auto.
Qed.

Lemma py_set_single (y : list Z) :
  length (py_set y) = 1 -> exists l, all_labels l y.
Proof.
  unfold py_set. intro H.
  destruct (nodup Z.eq_dec y) as [|l [|b u]] eqn:E; try discriminate.
  exists l. split.
  - intros ->. discriminate.
  - apply Forall_forall. intros v Hv.
    apply (nodup_In Z.eq_dec) in Hv. rewrite E in Hv.
    destruct Hv as [<-|[]]. reflexivity.
Qed.

Lemma fit_node_uniform (fuel : nat) (fts : list string) (X : matrix)
  (y : list Z) (nd : node) (l : Z) :
  all_labels l y ->
  _fit_node (S fuel) fts X y nd = (set_terminal nd l, Ok tt).
Proof.
  intro H. simpl.
  rewrite (py_set_all_labels l y H), (all_labels_head l y H). reflexivity.
Qed.

(* ================================================================= *)
(** ** The search loop of [_fit_node] never completes an iteration *)

Lemma unpack2_four (t : pytuple) :
  length t = 4 -> unpack2 t = Raise unpack_error.
Proof.
  destruct t as [|a [|b [|c [|d [|e t]]]]]; simpl; try discriminate.
  reflexivity.
Qed.

Lemma search_step_raises (fts : list string) (X : matrix) (y : list Z)
  (st : search) (f : nat) :
  exists e, search_step fts X y st f = Raise e.
Proof.
  unfold search_step.
  destruct (feature_vector_of fts X y f) as [fv|e]; [|simpl; eauto].
  cbn [bind].
  destruct (find_best_split fv y) as [t|e] eqn:E; [|simpl; eauto].
  cbn [bind]. rewrite (unpack2_four t (find_best_split_four fv y t E)).
  simpl. eauto.
Qed.

Lemma search_loop_first (fts : list string) (X : matrix) (y : list Z)
  (st : search) (n : nat) (e : exn) :
  0 < n ->
  search_step fts X y st 0 = Raise e ->
  search_loop fts X y st (seq 0 n) = Raise e.
Proof.
  intros Hn He. destruct n as [|n]; [lia|]. simpl. rewrite He. reflexivity.
Qed.



Lemma fit_node_mixed (fuel : nat) (fts : list string) (X : matrix)
  (y : list Z) (nd : node) :
  length (py_set y) <> 1 ->
  0 < ncols X ->
  exists e,
    search_step fts X y search_init 0 = Raise e
    /\ _fit_node (S fuel) fts X y nd = (nd, Raise e).
Proof.
  intros Hy Hc. destruct (search_step_raises fts X y search_init 0) as [e He].
  exists e. split; [exact He|]. simpl.
  destruct (Nat.eqb_spec (length (py_set y)) 1) as [H|_]; [contradiction|].
  rewrite (search_loop_first fts X y search_init (ncols X) e Hc He).
  reflexivity.
Qed.

Lemma unknown_kind_spec (k : string) :
  unknown_kind k = false <-> valid_kind k.
Proof.
  unfold unknown_kind, valid_kind. split.
  - intro H. apply andb_false_iff in H.
    destruct H as [H|H]; apply negb_false_iff, String.eqb_eq in H; auto.
  - intros [-> | ->]; reflexivity.
Qed.

Lemma np_any_unknown_kind (fts : list string) :
  np_any (map unknown_kind fts) = false <-> Forall valid_kind fts.
Proof.
  unfold np_any. induction fts as [|k fts IH]; simpl.
  - split; [constructor|reflexivity].
  - rewrite orb_false_iff, IH, unknown_kind_spec. split.
    + intros [H1 H2]. constructor; assumption.
    + intro H. inversion H; auto.
Qed.

Lemma init_ok_inv (fts : list string) (md mss msl : option nat)
  (self : DecisionTree) :
  __init__ fts md mss msl = Ok self ->
  Forall valid_kind fts
  /\ self = Build_DecisionTree empty_node fts md mss msl.
Proof.
  unfold __init__.
  destruct (np_any (map unknown_kind fts)) eqn:E; [discriminate|].
  intros [= <-]. split; [|reflexivity]. apply np_any_unknown_kind. exact E.
Qed.

Lemma predict_terminal (self : DecisionTree) (l : Z) (X : list (list Q)) :
  is_terminal (_tree self) l -> predict self X = Ok (map (fun _ => l) X).
Proof.
  intros [Ht Hc]. unfold predict.
  induction X as [|x X IH]; simpl; [reflexivity|].
  rewrite IH. destruct (_tree self) as [ty cls fs th lc rc]. simpl in *.
  subst. reflexivity.
Qed.

Lemma fit_uniform (fuel : nat) (self : DecisionTree) (X : matrix)
  (y : list Z) (l : Z) :
  all_labels l y ->
  fit (S fuel) self X y
  = (Build_DecisionTree (set_terminal (_tree self) l) (_feature_types self)
       (_max_depth self) (_min_samples_split self) (_min_samples_leaf self),
     Ok tt).
Proof.
  intro H. unfold fit.
  rewrite (fit_node_uniform fuel (_feature_types self) X y (_tree self) l H).
  reflexivity.
Qed.

(* ================================================================= *)
(** ** Properties of [DecisionTree] *)

(** C7: when all labels of a non-empty label vector are one label, [fit]
    returns normally and leaves a terminal root holding that label (exactly
    the dict with the two keys type and class when the tree was the empty
    dict), and [predict] then answers that label for every row of every
    input, seen in training or not. *)
Theorem fit_uniform_labels (fuel : nat) (self : DecisionTree) (X : matrix)
  (y : list Z) (l : Z) :
  all_labels l y ->
  let self' := fst (fit (S fuel) self X y) in
  snd (fit (S fuel) self X y) = Ok tt
  /\ is_terminal (_tree self') l
  /\ (_tree self = empty_node ->
      _tree self' = Node (Some "terminal"%string) (Some l) None None None None)
  /\ forall X', predict self' X' = Ok (map (fun _ => l) X').
Proof.
  intros H self'. subst self'. rewrite (fit_uniform fuel self X y l H).
  cbn [fst snd _tree].
  split; [reflexivity|]. split; [split; reflexivity|].
  split; [intros ->; reflexivity|].
  intro X'. apply predict_terminal. split; reflexivity.
Qed.

Lemma fit_uniform_labels_witness :
  let self := Build_DecisionTree empty_node ["real"%string] None None None in
  let X := Matrix 1 [[1]; [2]; [3]]%Q in
  let self' := fst (fit 1 self X [7; 7; 7]%Z) in
  snd (fit 1 self X [7; 7; 7]%Z) = Ok tt
  /\ is_terminal (_tree self') 7
  /\ predict self' [[10]; [-4]]%Q = Ok [7; 7]%Z.
Proof.
  intros self X self'.
  destruct (fit_uniform_labels 0 self X [7; 7; 7]%Z 7%Z) as [H1 [H2 [_ H4]]].
  - split; [discriminate|]. repeat constructor.
  - split; [exact H1|]. split; [exact H2|]. apply (H4 [[10]; [-4]]%Q).
Defined.

(** C8: the constructor succeeds, with an empty tree and the given tags,
    when every feature-kind tag is exactly real or categorical, and raises
    the error "There is unknown feature type" when some tag is anything
    else; it takes no data, so nothing is processed before the check. *)
Theorem init_checks_feature_kinds (fts : list string)
  (md mss msl : option nat) :
  (Forall valid_kind fts ->
   __init__ fts md mss msl
   = Ok (Build_DecisionTree empty_node fts md mss msl))
  /\ (~ Forall valid_kind fts ->
      __init__ fts md mss msl
      = Raise (ValueError "There is unknown feature type")).
Proof.
  unfold __init__.
  destruct (np_any (map unknown_kind fts)) eqn:E; split; intro H.
  - apply np_any_unknown_kind in H. congruence.
  - reflexivity.
  - reflexivity.
  - exfalso. apply H. apply np_any_unknown_kind. exact E.
Qed.

Lemma init_checks_feature_kinds_witness :
  __init__ ["real"; "categorical"]%string None None None
  = Ok (Build_DecisionTree empty_node ["real"; "categorical"]%string
          None None None)
  /\ __init__ ["real"; "Real"]%string None None None
     = Raise (ValueError "There is unknown feature type").
Proof.
  split.
  - apply (proj1 (init_checks_feature_kinds
                    ["real"; "categorical"]%string None None None)).
    constructor; [left; reflexivity|].
    constructor; [right; reflexivity|constructor].
  - apply (proj2 (init_checks_feature_kinds
                    ["real"; "Real"]%string None None None)).
    intro H. inversion H as [|? ? _ H1]; subst.
    inversion H1 as [|? ? H2 _]; subst.
    destruct H2; discriminate.
Defined.

(** C9, as stated, fails: [fit] has no check at entry.  A feature matrix of
    three rows with a label vector of two identical labels is accepted and
    yields a terminal root. *)
Lemma fit_accepts_row_count_mismatch :
  let self := Build_DecisionTree empty_node ["real"%string] None None None in
  let X := Matrix 1 [[1]; [2]; [3]]%Q in
  let y := [5; 5]%Z in
  __init__ ["real"%string] None None None = Ok self
  /\ length (rows X) <> length y
  /\ fit 1000 self X y
     = (Build_DecisionTree
          (Node (Some "terminal"%string) (Some 5%Z) None None None None)
          ["real"%string] None None None, Ok tt).
Proof.
  cbv zeta. split; [reflexivity|]. split; [discriminate|reflexivity].
Qed.

(** C9, amended: [fit] hands its arguments to the node builder without any
    check.  An empty label vector always makes it raise, from inside the
    builder; a label vector whose labels are all identical is accepted
    whatever the number of rows of the feature matrix, and yields a terminal
    root holding that label. *)
Theorem fit_degenerate_input (fuel : nat) (self : DecisionTree) (X : matrix)
  (y : list Z) :
  (y = [] -> exists e, snd (fit (S fuel) self X y) = Raise e)
  /\ (forall l, all_labels l y ->
      snd (fit (S fuel) self X y) = Ok tt
      /\ is_terminal (_tree (fst (fit (S fuel) self X y))) l).
Proof.
  split.
  - intros ->. unfold fit.
    destruct (Nat.eq_dec (ncols X) 0) as [Hc|Hc].
    + exists IndexError. simpl. rewrite Hc. reflexivity.
    + destruct (fit_node_mixed fuel (_feature_types self) X [] (_tree self))
        as [e [_ He]]; [discriminate|lia|].
      exists e. rewrite He. reflexivity.
  - intros l H. rewrite (fit_uniform fuel self X y l H).
    split; [reflexivity|split; reflexivity].
Qed.

Lemma fit_degenerate_input_witness :
  let self := Build_DecisionTree empty_node ["real"%string] None None None in
  (exists e, snd (fit 1 self (Matrix 1 []) []) = Raise e)
  /\ snd (fit 1 self (Matrix 1 [[1]; [2]; [3]]%Q) [5; 5]%Z) = Ok tt.
Proof.
  intro self. split.
  - apply (proj1 (fit_degenerate_input 0 self (Matrix 1 []) [])). reflexivity.
  - apply (proj2 (fit_degenerate_input 0 self (Matrix 1 [[1]; [2]; [3]]%Q)
                    [5; 5]%Z) 5%Z).
    split; [discriminate|]. repeat constructor.
Defined.




(** C1 does not hold of the code: on the dataset of one real column with the
    values 1, 2 and the labels 0, 1 the node builder raises when it unpacks
    the result of the scorer, before any triple is tracked; and the update
    of the incumbent, run on a column whose scores are 0.3 and 0.5 against
    an incumbent of score 0.1, replaces the incumbent by the threshold of
    the largest score, 0.5, where the scorer itself takes the smallest. *)
Theorem fit_tracks_no_best_triple :
  let self := Build_DecisionTree empty_node ["real"%string] None None None in
  __init__ ["real"%string] None None None = Ok self
  /\ fit 1000 self (Matrix 1 [[1]; [2]]%Q) [0; 1]%Z
     = (self, Raise unpack_error)
  /\ track_best (Search (Some 0) (Some 1%Q) (Some (1 # 10)%Q) (Some []))
       1 [1; 2; 3]%Q
       (PArray [3 # 2; 5 # 2]%Q) (PArray [3 # 10; 5 # 10]%Q)
     = Ok (Search (Some 1) (Some (5 # 2)%Q) (Some (5 # 10)%Q)
             (Some [true; true; false])).
Proof.
  cbv zeta. split; [reflexivity|]. split; vm_compute; reflexivity.
Qed.

(* ================================================================= *)
(** ** Further properties of [find_best_split] *)

(** Whatever the two vectors, when [find_best_split] returns, it returns
    four values, the thresholds and the scores have the same length, and
    the best threshold and the best score are [None] exactly when those
    sequences are empty. *)
Theorem find_best_split_parallel (fv : list Q) (tv : list Z) (t : pytuple) :
  find_best_split fv tv = Ok t ->
  length t = 4
  /\ length (thresholds_of t) = length (ginis_of t)
  /\ (threshold_best_of t = None <-> thresholds_of t = [])
  /\ (gini_best_of t = None <-> ginis_of t = []).
Proof.
  intro H. apply find_best_split_shape in H.
  destruct H as [->|[ths [gs [i [th [g [-> [Hne [Hlen _]]]]]]]]].
  - repeat split; reflexivity.
  - cbn. repeat split; try assumption; try discriminate.
    + intros ->. destruct gs; [congruence|discriminate].
    + intros ->. congruence.
Qed.

Lemma find_best_split_parallel_witness :
  exists t,
    find_best_split [1; 2; 3; 4]%Q [0; 0; 1; 1]%Z = Ok t
    /\ length t = 4
    /\ length (thresholds_of t) = length (ginis_of t).
Proof.
  eexists. split; [vm_compute; reflexivity|].
  destruct (find_best_split_parallel [1; 2; 3; 4]%Q [0; 0; 1; 1]%Z _
              ltac:(vm_compute; reflexivity)) as [H1 [H2 _]].
  split; assumption.
Defined.







Lemma argmin_from_first (l : list Q) :
  forall pre best besti,
    nth_error pre besti = Some best ->
    Forall (fun x => (best <= x)%Q) pre ->
    (forall j x, j < besti -> nth_error pre j = Some x -> (best < x)%Q) ->
    forall j x,
      j < argmin_from best besti (length pre) l ->
      nth_error (pre ++ l) j = Some x ->
      exists m,
        nth_error (pre ++ l) (argmin_from best besti (length pre) l) = Some m
        /\ (m < x)%Q.
Proof.
  induction l as [|y l IH]; intros pre best besti Hn Hall Hfirst j x; simpl.
  - rewrite app_nil_r. intros Hj Hx. exists best. split; [exact Hn|eauto].
  - replace (pre ++ y :: l) with ((pre ++ [y]) ++ l)
      by (rewrite <- app_assoc; reflexivity).
    replace (S (length pre)) with (length (pre ++ [y]))
      by (rewrite length_app; simpl; lia).
    destruct (Qltb y best) eqn:E.
    + apply Qltb_lt in E. apply IH.
      * rewrite nth_error_app2 by lia. rewrite Nat.sub_diag. reflexivity.
      * apply Forall_app. split.
        -- eapply Forall_impl; [|exact Hall]. intros w Hw.
           apply Qlt_le_weak. eapply Qlt_le_trans; eauto.
        -- constructor; [apply Qle_refl|constructor].
      * intros k z Hk Hz. rewrite nth_error_app1 in Hz by exact Hk.
        apply nth_error_In in Hz. rewrite Forall_forall in Hall.
        eapply Qlt_le_trans; [exact E|auto].
    + apply Qltb_ge in E. apply IH.
      * rewrite nth_error_app1; [exact Hn|].
        apply nth_error_Some. congruence.
      * apply Forall_app. split; [exact Hall|].
        constructor; [exact E|constructor].
      * intros k z Hk Hz.
        assert (Hb : besti < length pre)
          by (apply nth_error_Some; congruence).
        rewrite nth_error_app1 in Hz by lia. eauto.
Qed.

(** Ties are broken towards the smallest threshold: every score that comes
    before the reported best one in the sequence is strictly greater than
    it. *)
Theorem find_best_split_first_minimum (fv : list Q) (tv : list Z)
  (t : pytuple) (g : Q) :
  find_best_split fv tv = Ok t ->
  gini_best_of t = Some g ->
  exists i th,
    threshold_best_of t = Some th
    /\ nth_error (thresholds_of t) i = Some th
    /\ nth_error (ginis_of t) i = Some g
    /\ forall j s, j < i -> nth_error (ginis_of t) j = Some s -> (g < s)%Q.
Proof.
  unfold find_best_split.
  destruct (Nat.ltb _ 2); [intros [= <-]; discriminate|].
  destruct (split_loop _ _ _ _ _ _) as [[ths gs]|] eqn:E; [|discriminate].
  apply split_loop_lengths in E; [|reflexivity]. simpl in E. cbn [bind].
  destruct gs as [|g0 gs]; [intros [= <-]; discriminate|].
  destruct (np_argmin_spec g0 gs) as [i [m [Hi [Hm Hall]]]].
  rewrite Hi. cbn [bind].
  assert (Hlt : i < length ths).
  { rewrite E. apply nth_error_Some. congruence. }
  apply nth_error_Some in Hlt. unfold getitem.
  destruct (nth_error ths i) as [th|] eqn:Hth; [|congruence].
  rewrite Hm. cbn [bind]. intros [= <-]. cbn. intros [= <-].
  exists i, th. repeat split; try assumption.
  intros j s Hj Hs.
  injection Hi as <-.
  destruct (argmin_from_first gs [g0] g0 0 eq_refl) with (j := j) (x := s)
    as [m' [Hm' Hlt']].
  - constructor; [apply Qle_refl|constructor].
  - intros k z Hk. lia.
  - exact Hj.
  - exact Hs.
  - simpl in Hm'. simpl in Hm. rewrite Hm in Hm'. injection Hm' as <-.
    exact Hlt'.
Qed.

Lemma find_best_split_first_minimum_witness :
  exists t g,
    find_best_split [1; 2; 3; 4]%Q [0; 1; 0; 1]%Z = Ok t
    /\ gini_best_of t = Some g
    /\ exists i th,
        threshold_best_of t = Some th
        /\ nth_error (thresholds_of t) i = Some th
        /\ nth_error (ginis_of t) i = Some g
        /\ forall j s, j < i -> nth_error (ginis_of t) j = Some s -> (g < s)%Q.
Proof.
  destruct (find_best_split [1; 2; 3; 4]%Q [0; 1; 0; 1]%Z) as [t|e] eqn:E;
    [|vm_compute in E; discriminate].
  exists t. destruct (gini_best_of t) as [g|] eqn:G.
  - exists g. split; [reflexivity|]. split; [reflexivity|].
    exact (find_best_split_first_minimum _ _ t g E G).
  - exfalso. vm_compute in E. injection E as <-. discriminate G.
Defined.

(* ================================================================= *)
(** ** Range of the scores *)

Lemma counter_add_sum {K : Type} (eqb : K -> K -> bool) (k : K)
  (c : counter K) :
  list_sum (values (counter_add eqb k c)) = S (list_sum (values c)).
Proof.
  unfold values. induction c as [|[k' n] c IH]; simpl; [reflexivity|].
  destruct (eqb k' k); simpl; [reflexivity|].
  rewrite IH. lia.
Qed.

Lemma Counter_sum {K : Type} (eqb : K -> K -> bool) (l : list K) :
  list_sum (values (Counter eqb l)) = length l.
Proof.
  induction l as [|x l IH] using rev_ind; [reflexivity|].
  rewrite Counter_snoc, counter_add_sum, IH, length_app. simpl. lia.
Qed.

Lemma class_counts_sum (part : list Z) :
  list_sum (map (fun c => occurrences Z.eqb c part) (classes_of Z.eqb part))
  = length part.
Proof.
  rewrite <- (Counter_sum Z.eqb part), Counter_Z_tabulates.
  unfold values. rewrite map_map. reflexivity.
Qed.

Lemma classes_of_in {K : Type} (eqb : K -> K -> bool) (c : K) (l : list K) :
  In c (classes_of eqb l) -> In c l.
Proof.
  induction l as [|x l IH]; simpl; [tauto|].
  intros [H|H]; [auto|]. apply filter_In in H. right. apply IH. tauto.
Qed.

Lemma class_counts_positive (part : list Z) :
  Forall (fun n => 1 <= n)
    (map (fun c => occurrences Z.eqb c part) (classes_of Z.eqb part)).
Proof.
  apply Forall_forall. intros n Hn. apply in_map_iff in Hn.
  destruct Hn as [c [<- Hc]]. apply classes_of_in in Hc.
  apply (occurrences_present Z Z.eqb Z.eqb_sym).
  apply existsb_exists. exists c. split; [exact Hc|apply Z.eqb_refl].
Qed.

Lemma sum_squares_le (ns : list nat) :
  list_sum (map (fun n => n * n) ns) <= list_sum ns * list_sum ns.
Proof.
  induction ns as [|n ns IH]; simpl; [lia|]. nia.
Qed.

Lemma sum_squares_eq (ns : list nat) :
  Forall (fun n => 1 <= n) ns ->
  list_sum (map (fun n => n * n) ns) = list_sum ns * list_sum ns ->
  length ns <= 1.
Proof.
  intros Hpos Heq. destruct ns as [|a [|b ns]]; simpl; try lia.
  exfalso. inversion Hpos as [|? ? Ha Hpos1]; subst.
  inversion Hpos1 as [|? ? Hb _]; subst.
  assert (H := sum_squares_le ns). simpl in Heq. nia.
Qed.

Lemma Qsum_from (l : list Q) (a : Q) :
  (fold_left Qplus l a == a + Qsum l)%Q.
Proof.
  unfold Qsum. revert a. induction l as [|x l IH]; intro a; simpl.
  - ring.
  - rewrite (IH (a + x)%Q), (IH (0 + x)%Q). ring.
Qed.

Lemma Qsum_cons (x : Q) (l : list Q) : (Qsum (x :: l) == x + Qsum l)%Q.
Proof.
  unfold Qsum at 1. simpl. rewrite Qsum_from. ring.
Qed.

Lemma Q_of_nat_add (a b : nat) :
  (Q_of_nat (a + b) == Q_of_nat a + Q_of_nat b)%Q.
Proof.
  unfold Q_of_nat. rewrite Nat2Z.inj_add, inject_Z_plus. reflexivity.
Qed.

Lemma Q_of_nat_mul (a b : nat) :
  (Q_of_nat (a * b) == Q_of_nat a * Q_of_nat b)%Q.
Proof.
  unfold Q_of_nat. rewrite Nat2Z.inj_mul, inject_Z_mult. reflexivity.
Qed.

Lemma Q_of_nat_le (a b : nat) : a <= b -> (Q_of_nat a <= Q_of_nat b)%Q.
Proof.
  intro H. unfold Q_of_nat. rewrite <- Zle_Qle. lia.
Qed.

Lemma Q_of_nat_lt (a b : nat) : a < b -> (Q_of_nat a < Q_of_nat b)%Q.
Proof.
  intro H. unfold Q_of_nat. rewrite <- Zlt_Qlt. lia.
Qed.

Lemma Q_of_nat_eq (a b : nat) : (Q_of_nat a == Q_of_nat b)%Q -> a = b.
Proof.
  unfold Q_of_nat. intro H. apply Nat2Z.inj. apply inject_Z_injective.
  exact H.
Qed.

Lemma Qsquare (q : Q) : (q ^ 2 == q * q)%Q.
Proof. reflexivity. Qed.

Lemma Qsum_squared_fractions (ns : list nat) (N : nat) :
  0 < N ->
  (Qsum (map (fun n => (Q_of_nat n / Q_of_nat N) ^ 2) ns)
   == Q_of_nat (list_sum (map (fun n => (n * n)%nat) ns))
      / (Q_of_nat N * Q_of_nat N))%Q.
Proof.
  intro HN. assert (HQ : (0 < Q_of_nat N)%Q) by (apply (Q_of_nat_lt 0 N HN)).
  assert (Hnz : ~ (Q_of_nat N == 0)%Q) by lra.
  induction ns as [|n ns IH].
  - cbn [map list_sum fold_right]. unfold Qsum. cbn [fold_left].
    change (Q_of_nat 0) with 0%Q. clear HQ. revert Hnz.
    generalize (Q_of_nat N) as b. intros b Hnz. field. exact Hnz.
  - change (list_sum (map (fun k => (k * k)%nat) (n :: ns)))
      with (n * n + list_sum (map (fun k => (k * k)%nat) ns)).
    rewrite map_cons, Qsum_cons, IH, Q_of_nat_add, Q_of_nat_mul, Qsquare.
    clear IH HQ. revert Hnz.
    generalize (Q_of_nat (list_sum (map (fun k => (k * k)%nat) ns))) as c.
    generalize (Q_of_nat n) as a. generalize (Q_of_nat N) as b.
    intros b a c Hnz. field. exact Hnz.
Qed.

(** The impurity of a non-empty list of labels, as a fraction. *)
Lemma impurity_fraction (part : list Z) :
  part <> [] ->
  let A := list_sum (map (fun n => n * n)
                       (map (fun c => occurrences Z.eqb c part)
                          (classes_of Z.eqb part))) in
  (impurity part
   == 1 - Q_of_nat A / (Q_of_nat (length part) * Q_of_nat (length part)))%Q
  /\ 1 <= A <= length part * length part.
Proof.
  intros Hne A.
  assert (HN : 0 < length part) by (destruct part; [congruence|simpl; lia]).
  split.
  - unfold impurity.
    rewrite <- (map_map (fun c => occurrences Z.eqb c part)
                  (fun n => (Q_of_nat n / Q_of_nat (length part)) ^ 2)%Q).
    rewrite (Qsum_squared_fractions _ (length part) HN). reflexivity.
  - subst A. split.
    + assert (Hpos := class_counts_positive part).
      assert (Hsum := class_counts_sum part).
      destruct (map (fun c => occurrences Z.eqb c part)
                  (classes_of Z.eqb part)) as [|n ns]; simpl in *; [lia|].
      inversion Hpos; subst. nia.
    + rewrite <- (class_counts_sum part). apply sum_squares_le.
Qed.

Lemma impurity_range (part : list Z) :
  part <> [] -> (0 <= impurity part)%Q /\ (impurity part < 1)%Q.
Proof.
  intro Hne. destruct (impurity_fraction part Hne) as [Heq [HA1 HA2]].
  assert (HN : 0 < length part) by (destruct part; [congruence|simpl; lia]).
  set (A := list_sum _) in *.
  assert (HQN : (0 < Q_of_nat (length part))%Q) by (apply (Q_of_nat_lt 0 _ HN)).
  assert (HQA : (0 < Q_of_nat A)%Q) by (apply (Q_of_nat_lt 0 A); lia).
  assert (HQle : (Q_of_nat A <= Q_of_nat (length part) * Q_of_nat (length part))%Q).
  { rewrite <- Q_of_nat_mul. apply Q_of_nat_le. exact HA2. }
  assert (HNN : (0 < Q_of_nat (length part) * Q_of_nat (length part))%Q) by nra.
  assert (H1 : (0 < Q_of_nat A
                    / (Q_of_nat (length part) * Q_of_nat (length part)))%Q).
  { apply Qlt_shift_div_l; lra. }
  assert (H2 : (Q_of_nat A / (Q_of_nat (length part) * Q_of_nat (length part))
                <= 1)%Q).
  { apply Qle_shift_div_r; lra. }
  rewrite Heq. split; lra.
Qed.

Lemma filter_partition_length {A : Type} (f : A -> bool) (l : list A) :
  length (filter f l) + length (filter (fun x => negb (f x)) l) = length l.
Proof.
  induction l as [|a l IH]; simpl; [reflexivity|].
  destruct (f a); simpl; lia.
Qed.

Lemma labels_partition (fv : list Q) (tv : list Z) (t : Q) :
  length fv = length tv ->
  length (left_labels fv tv t) + length (right_labels fv tv t) = length tv.
Proof.
  intro Hlen. unfold left_labels, right_labels. rewrite !length_map.
  rewrite (filter_partition_length (fun p => Qltb (fst p) t) (combine fv tv)).
  rewrite length_combine. lia.
Qed.

Lemma retained_labels (fv : list Q) (tv : list Z) (t : Q) :
  length fv = length tv ->
  retained fv t = true ->
  left_labels fv tv t <> [] /\ right_labels fv tv t <> [].
Proof.
  intros Hlen Hr. unfold retained in Hr. apply andb_true_iff in Hr.
  destruct Hr as [Hl Hr].
  assert (H1 := filter_fst_length (fun x => Qltb x t) fv tv Hlen).
  assert (H2 := filter_fst_length (fun x => negb (Qltb x t)) fv tv Hlen).
  split; intro H; apply (f_equal (@length Z)) in H;
    unfold left_labels, right_labels in H; rewrite length_map in H;
    simpl in H.
  - rewrite H1 in H.
    destruct (filter (fun x => Qltb x t) fv);
      [discriminate Hl|discriminate H].
  - rewrite H2 in H.
    destruct (filter (fun x => negb (Qltb x t)) fv);
      [discriminate Hr|discriminate H].
Qed.

Lemma nonempty_length {A : Type} (l : list A) : l <> [] -> 0 < length l.
Proof. destruct l; [congruence|simpl; lia]. Qed.

(** The two weights of a retained threshold are positive and add up to 1. *)
Lemma weights_of_retained (fv : list Q) (tv : list Z) (t : Q) :
  length fv = length tv ->
  retained fv t = true ->
  let a := (Q_of_nat (length (left_labels fv tv t)) / Q_of_nat (length tv))%Q in
  let b := (Q_of_nat (length (right_labels fv tv t)) / Q_of_nat (length tv))%Q in
  (0 < a)%Q /\ (0 < b)%Q /\ (a + b == 1)%Q.
Proof.
  intros Hlen Hr a b.
  destruct (retained_labels fv tv t Hlen Hr) as [Hl Hrr].
  apply nonempty_length in Hl. apply nonempty_length in Hrr.
  assert (Hsum := labels_partition fv tv t Hlen).
  assert (HL := Q_of_nat_lt 0 _ Hl). assert (HR := Q_of_nat_lt 0 _ Hrr).
  assert (HT : (Q_of_nat (length tv)
                == Q_of_nat (length (left_labels fv tv t))
                   + Q_of_nat (length (right_labels fv tv t)))%Q).
  { rewrite <- Q_of_nat_add, Hsum. reflexivity. }
  change (Q_of_nat 0) with 0%Q in HL, HR.
  assert (HT0 : (0 < Q_of_nat (length tv))%Q) by lra.
  subst a b. split; [|split].
  - apply Qlt_shift_div_l; lra.
  - apply Qlt_shift_div_l; lra.
  - rewrite HT at 1 2. field. lra.
Qed.

Lemma weighted_gini_range (fv : list Q) (tv : list Z) (t : Q) :
  length fv = length tv ->
  retained fv t = true ->
  (0 <= weighted_gini fv tv t)%Q /\ (weighted_gini fv tv t < 1)%Q.
Proof.
  intros Hlen Hr.
  destruct (weights_of_retained fv tv t Hlen Hr) as [Ha [Hb Hab]].
  destruct (retained_labels fv tv t Hlen Hr) as [Hl Hrr].
  destruct (impurity_range _ Hl) as [Hp0 Hp1].
  destruct (impurity_range _ Hrr) as [Hq0 Hq1].
  unfold weighted_gini. cbv zeta. split; nra.
Qed.

(** For vectors of the same length every score that [find_best_split]
    returns is at least 0 and strictly less than 1. *)
Theorem find_best_split_score_range (fv : list Q) (tv : list Z)
  (t : pytuple) :
  length fv = length tv ->
  find_best_split fv tv = Ok t ->
  Forall (fun s => (0 <= s)%Q /\ (s < 1)%Q) (ginis_of t).
Proof.
  intros Hlen Ht.
  destruct (find_best_split_matched fv tv Hlen) as [t' [Ht' [_ Hgs]]].
  rewrite Ht in Ht'. injection Ht' as <-.
  rewrite Hgs. apply Forall_forall. intros s Hs.
  apply in_map_iff in Hs. destruct Hs as [th [<- Hth]].
  apply filter_In in Hth. apply weighted_gini_range; tauto.
Qed.

Lemma find_best_split_score_range_witness :
  exists t,
    find_best_split [1; 2; 3; 4]%Q [0; 1; 0; 1]%Z = Ok t
    /\ Forall (fun s => (0 <= s)%Q /\ (s < 1)%Q) (ginis_of t).
Proof.
  eexists. split; [vm_compute; reflexivity|].
  apply (find_best_split_score_range [1; 2; 3; 4]%Q [0; 1; 0; 1]%Z);
    [reflexivity | vm_compute; reflexivity].
Defined.

Lemma classes_of_uniform (a : Z) (part : list Z) :
  part <> [] -> Forall (fun v => v = a) part -> classes_of Z.eqb part = [a].
Proof.
  intros Hne Hall. destruct part as [|x part]; [congruence|].
  inversion Hall as [|? ? Hx Hrest]. subst. simpl. f_equal.
  assert (H : forall d, In d (classes_of Z.eqb part) -> d = a).
  { intros d Hd. apply classes_of_in in Hd.
    rewrite Forall_forall in Hrest. auto. }
  induction (classes_of Z.eqb part) as [|d ds IH]; [reflexivity|].
  simpl. rewrite (H d) by (simpl; auto). rewrite Z.eqb_refl. simpl.
  apply IH. intros e He. apply H. simpl. auto.
Qed.

Lemma occurrences_uniform (a : Z) (part : list Z) :
  Forall (fun v => v = a) part -> occurrences Z.eqb a part = length part.
Proof.
  unfold occurrences. induction 1 as [|x l -> _ IH]; simpl; [reflexivity|].
  rewrite Z.eqb_refl. simpl. f_equal. exact IH.
Qed.

Lemma classes_of_single (a : Z) (part : list Z) :
  classes_of Z.eqb part = [a] -> Forall (fun v => v = a) part.
Proof.
  intro H. apply Forall_forall. intros x Hx.
  destruct (classes_of_complete Z Z.eqb Z.eqb_refl Zeqb_trans x part Hx)
    as [c [Hc Hcx]].
  rewrite H in Hc. destruct Hc as [<-|[]].
  apply Z.eqb_eq in Hcx. congruence.
Qed.

(** The impurity of a non-empty list of labels is 0 exactly when the list
    holds a single class. *)
Lemma impurity_zero_iff (part : list Z) :
  part <> [] ->
  (impurity part == 0)%Q <-> exists a, Forall (fun v => v = a) part.
Proof.
  intro Hne. destruct (impurity_fraction part Hne) as [Heq [HA1 HA2]].
  assert (HN := nonempty_length part Hne).
  assert (HQN := Q_of_nat_lt 0 _ HN). change (Q_of_nat 0) with 0%Q in HQN.
  split.
  - intro H0. rewrite Heq in H0.
    set (A := list_sum _) in *.
    assert (HA : A = length part * length part).
    { apply Q_of_nat_eq. rewrite Q_of_nat_mul.
      assert (HNN : (0 < Q_of_nat (length part) * Q_of_nat (length part))%Q)
        by nra.
      assert (H1 : (Q_of_nat A
                    / (Q_of_nat (length part) * Q_of_nat (length part))
                    == 1)%Q) by lra.
      apply (Qmult_inj_r _ _ (/ (Q_of_nat (length part)
                                 * Q_of_nat (length part)))%Q).
      - intro Hz. apply Qinv_lt_0_compat in HNN. lra.
      - change (Q_of_nat A * / (Q_of_nat (length part) * Q_of_nat (length part)))%Q
          with (Q_of_nat A / (Q_of_nat (length part) * Q_of_nat (length part)))%Q.
        rewrite H1. field. lra. }
    subst A. rewrite <- (class_counts_sum part) in HA.
    apply sum_squares_eq in HA; [|apply class_counts_positive].
    rewrite length_map in HA.
    destruct (classes_of Z.eqb part) as [|a [|b cs]] eqn:E;
      simpl in HA; try lia.
    + destruct part; [congruence|discriminate E].
    + exists a. apply classes_of_single. exact E.
  - intros [a Ha]. unfold impurity.
    rewrite (classes_of_uniform a part Hne Ha). cbn [map].
    rewrite (occurrences_uniform a part Ha). unfold Qsum. cbn [fold_left].
    rewrite Qsquare. revert HQN. generalize (Q_of_nat (length part)) as n.
    intros n Hn. field. lra.
Qed.

(** For vectors of the same length, the score of a returned threshold is 0
    exactly when each side of the threshold holds a single class. *)
Theorem find_best_split_zero_iff_pure (fv : list Q) (tv : list Z)
  (t : pytuple) (i : nat) (th s : Q) :
  length fv = length tv ->
  find_best_split fv tv = Ok t ->
  nth_error (thresholds_of t) i = Some th ->
  nth_error (ginis_of t) i = Some s ->
  (s == 0)%Q
  <-> (exists a, Forall (fun v => v = a) (left_labels fv tv th))
      /\ (exists b, Forall (fun v => v = b) (right_labels fv tv th)).
Proof.
  intros Hlen Ht Hth Hs.
  destruct (find_best_split_matched fv tv Hlen) as [t' [Ht' [Hths Hgs]]].
  rewrite Ht in Ht'. injection Ht' as <-.
  rewrite Hgs, nth_error_map, <- Hths, Hth in Hs. injection Hs as <-.
  assert (Hr : retained fv th = true).
  { apply nth_error_In in Hth. rewrite Hths in Hth.
    apply filter_In in Hth. tauto. }
  destruct (weights_of_retained fv tv th Hlen Hr) as [Ha [Hb Hab]].
  destruct (retained_labels fv tv th Hlen Hr) as [Hl Hrr].
  destruct (impurity_range _ Hl) as [Hp0 _].
  destruct (impurity_range _ Hrr) as [Hq0 _].
  rewrite <- (impurity_zero_iff _ Hl), <- (impurity_zero_iff _ Hrr).
  unfold weighted_gini. cbv zeta. split.
  - intro H0. split; nra.
  - intros [H1 H2]. rewrite H1, H2. ring.
Qed.

Lemma find_best_split_zero_iff_pure_witness :
  exists t th s,
    find_best_split [1; 1; 2; 2]%Q [0; 0; 1; 1]%Z = Ok t
    /\ nth_error (thresholds_of t) 0 = Some th
    /\ nth_error (ginis_of t) 0 = Some s
    /\ ((s == 0)%Q
        <-> (exists a, Forall (fun v => v = a)
                         (left_labels [1; 1; 2; 2]%Q [0; 0; 1; 1]%Z th))
            /\ (exists b, Forall (fun v => v = b)
                            (right_labels [1; 1; 2; 2]%Q [0; 0; 1; 1]%Z th))).
Proof.
  destruct (find_best_split [1; 1; 2; 2]%Q [0; 0; 1; 1]%Z) as [t|e] eqn:E;
    [|vm_compute in E; discriminate].
  exists t.
  destruct (nth_error (thresholds_of t) 0) as [th|] eqn:T;
    [|exfalso; vm_compute in E; injection E as <-; discriminate T].
  destruct (nth_error (ginis_of t) 0) as [s|] eqn:G;
    [|exfalso; vm_compute in E; injection E as <-; discriminate G].
  exists th, s. split; [reflexivity|]. split; [reflexivity|].
  split; [reflexivity|].
  exact (find_best_split_zero_iff_pure [1; 1; 2; 2]%Q [0; 0; 1; 1]%Z
           t 0 th s eq_refl E T G).
Defined.

(* ================================================================= *)
(** ** Further properties of [fit] *)

Lemma search_loop_ok_inv (fts : list string) (X : matrix) (y : list Z)
  (st st' : search) (range : list nat) :
  search_loop fts X y st range = Ok st' -> range = [] /\ st' = st.
Proof.
  destruct range as [|f range]; simpl.
  - intros [= <-]. auto.
  - destruct (search_step_raises fts X y st f) as [e ->]. discriminate.
Qed.

Lemma fit_node_fields (fuel : nat) (fts : list string) (X : matrix)
  (y : list Z) (nd : node) :
  let nd' := fst (_fit_node fuel fts X y nd) in
  feature_split nd' = feature_split nd
  /\ threshold nd' = threshold nd
  /\ left_child nd' = left_child nd
  /\ right_child nd' = right_child nd
  /\ (ntype nd' = ntype nd \/ ntype nd' = Some "terminal"%string).
Proof.
  destruct fuel as [|fuel]; [simpl; auto 6|].
  cbn [_fit_node].
  destruct (Nat.eqb (length (py_set y)) 1).
  - destruct (getitem y 0); simpl; auto 6.
  - destruct (search_loop fts X y search_init (seq 0 (ncols X)))
      as [st|e] eqn:E; [|simpl; auto 6].
    apply search_loop_ok_inv in E. destruct E as [_ ->]. cbn [gini_best search_init].
    destruct (getitem (most_common1 (Counter Z.eqb y)) 0) as [[cls n]|e];
      simpl; auto 6.
Qed.

(** [fit] never builds an internal node: whatever the object, the data and
    the outcome, the keys feature_split, threshold, left_child and
    right_child of the root are left as they were, and the type of the
    root is left as it was or set to terminal. *)
Theorem fit_builds_no_internal_node (fuel : nat) (self : DecisionTree)
  (X : matrix) (y : list Z) :
  let root := _tree (fst (fit fuel self X y)) in
  feature_split root = feature_split (_tree self)
  /\ threshold root = threshold (_tree self)
  /\ left_child root = left_child (_tree self)
  /\ right_child root = right_child (_tree self)
  /\ (ntype root = ntype (_tree self) \/ ntype root = Some "terminal"%string).
Proof.
  unfold fit.
  assert (H := fit_node_fields fuel (_feature_types self) X y (_tree self)).
  destruct (_fit_node fuel (_feature_types self) X y (_tree self)) as [nd r].
  exact H.
Qed.

Lemma first_max_spec (c : counter Z) :
  forall before best mid,
    Forall (fun e => snd e < snd best) before ->
    Forall (fun e => snd e <= snd best) mid ->
    exists before' after',
      before ++ best :: mid ++ c = before' ++ first_max best c :: after'
      /\ Forall (fun e => snd e < snd (first_max best c)) before'
      /\ Forall (fun e => snd e <= snd (first_max best c)) after'.
Proof.
  induction c as [|[k n] c IH]; intros before best mid Hb Hm; simpl.
  - exists before, mid. rewrite app_nil_r. auto.
  - destruct (Nat.ltb_spec (snd best) n) as [Hlt|Hge].
    + destruct (IH (before ++ best :: mid) (k, n) []) as [b' [a' [He H]]].
      * apply Forall_app. split.
        -- eapply Forall_impl; [|exact Hb]. simpl. intros; lia.
        -- constructor; [simpl; lia|].
           eapply Forall_impl; [|exact Hm]. simpl. intros; lia.
      * constructor.
      * exists b', a'. split; [|exact H].
        rewrite <- He. rewrite <- app_assoc. reflexivity.
    + destruct (IH before best (mid ++ [(k, n)])) as [b' [a' [He H]]].
      * exact Hb.
      * apply Forall_app. split; [exact Hm|]. constructor; [simpl; lia|constructor].
      * exists b', a'. split; [|exact H].
        rewrite <- He. rewrite <- app_assoc. reflexivity.
Qed.

Lemma most_common1_majority (y : list Z) :
  y <> [] ->
  exists c n,
    most_common1 (Counter Z.eqb y) = [(c, n)] /\ first_majority c y.
Proof.
  intro Hne. rewrite Counter_Z_tabulates.
  destruct (classes_of Z.eqb y) as [|c0 cs] eqn:E;
    [destruct y; [congruence|discriminate E]|].
  cbn [map most_common1].
  set (g := fun c => (c, occurrences Z.eqb c y)).
  destruct (first_max_spec (map g cs) [] (g c0) []) as [b' [a' [He [Hb Ha]]]];
    [constructor|constructor|].
  simpl in He. fold (g c0).
  destruct (first_max (g c0) (map g cs)) as [c n] eqn:Em.
  exists c, n. split; [reflexivity|].
  assert (Hall : forall e, In e (g c0 :: map g cs) -> e = g (fst e)).
  { intros e [<-|He']; [reflexivity|].
    apply in_map_iff in He'. destruct He' as [d [<- _]]. reflexivity. }
  assert (Hn : n = occurrences Z.eqb c y).
  { assert (Hi : In (c, n) (g c0 :: map g cs))
      by (rewrite He; apply in_or_app; simpl; auto).
    apply Hall in Hi. unfold g in Hi. simpl in Hi. congruence. }
  exists (map fst b'), (map fst a'). split; [|split].
  - rewrite E.
    assert (Hk : c0 :: cs = map fst (g c0 :: map g cs)).
    { simpl. f_equal. rewrite map_map. symmetry. apply map_id. }
    rewrite Hk, He, map_app. reflexivity.
  - apply Forall_forall. intros d Hd. apply in_map_iff in Hd.
    destruct Hd as [e [<- Hin]].
    assert (Hi : In e (g c0 :: map g cs))
      by (rewrite He; apply in_or_app; auto).
    apply Hall in Hi. rewrite Forall_forall in Hb. specialize (Hb e Hin).
    rewrite Hi in Hb. simpl in Hb. lia.
  - apply Forall_forall. intros d Hd. apply in_map_iff in Hd.
    destruct Hd as [e [<- Hin]].
    assert (Hi : In e (g c0 :: map g cs))
      by (rewrite He; apply in_or_app; simpl; auto).
    apply Hall in Hi. rewrite Forall_forall in Ha. specialize (Ha e Hin).
    rewrite Hi in Ha. simpl in Ha. lia.
Qed.

Lemma with_tree_same (self : DecisionTree) : with_tree self (_tree self) = self.
Proof. destruct self; reflexivity. Qed.

Lemma fit_raises_with (fuel : nat) (self : DecisionTree) (X : matrix)
  (y : list Z) (e : exn) :
  ~ (exists l, all_labels l y) ->
  0 < ncols X ->
  search_step (_feature_types self) X y search_init 0 = Raise e ->
  fit (S fuel) self X y = (self, Raise e).
Proof.
  intros Hmixed Hpos He.
  assert (Hset : length (py_set y) <> 1).
  { intro H. apply Hmixed. apply py_set_single. exact H. }
  destruct (fit_node_mixed fuel (_feature_types self) X y (_tree self)
              Hset Hpos) as [e' [He' Hfit]].
  rewrite He in He'. injection He' as <-.
  unfold fit. rewrite Hfit. fold (with_tree self (_tree self)).
  rewrite with_tree_same. reflexivity.
Qed.

Lemma fit_without_columns_majority_helper (fuel : nat)
  (self : DecisionTree) (X : matrix) (y : list Z) :
  ncols X = 0 ->
  y <> [] ->
  exists c,
    fit (S fuel) self X y
    = (with_tree self (set_terminal (_tree self) c), Ok tt)
    /\ first_majority c y.
Proof.
  intros Hc Hne. unfold fit. cbn [_fit_node]. rewrite Hc.
  destruct (Nat.eqb_spec (length (py_set y)) 1) as [H1|H1].
  - destruct (py_set_single y H1) as [l Hl]. exists l.
    rewrite (all_labels_head l y Hl). split; [reflexivity|].
    exists [], []. destruct Hl as [_ Hl].
    rewrite (classes_of_uniform l y Hne Hl). repeat split; constructor.
  - cbn [seq search_loop gini_best search_init].
    destruct (most_common1_majority y Hne) as [c [n [Hm Hmaj]]].
    rewrite Hm. exists c. split; [reflexivity|exact Hmaj].
Qed.

(** With no feature column and a non-empty label vector, [fit] returns
    normally and makes the root a terminal node whose class is the first
    most frequent label: among equally frequent labels, the one that occurs
    first in the label vector. *)
Theorem fit_without_columns_majority (fuel : nat) (self : DecisionTree)
  (X : matrix) (y : list Z) :
  ncols X = 0 ->
  y <> [] ->
  exists c,
    fit (S fuel) self X y
    = (with_tree self (set_terminal (_tree self) c), Ok tt)
    /\ first_majority c y.
Proof.
  intros Hc Hne.
  exact (fit_without_columns_majority_helper fuel self X y Hc Hne).
Qed.

Lemma fit_without_columns_majority_witness :
  exists c,
    fit 1 (Build_DecisionTree empty_node [] None None None)
      (Matrix 0 [[]; []; []; []; []]) [3; 8; 8; 3; 5]%Z
    = (with_tree (Build_DecisionTree empty_node [] None None None)
         (set_terminal empty_node c), Ok tt)
    /\ first_majority c [3; 8; 8; 3; 5]%Z.
Proof.
  apply (fit_without_columns_majority 0
           (Build_DecisionTree empty_node [] None None None)
           (Matrix 0 [[]; []; []; []; []]) [3; 8; 8; 3; 5]%Z);
    [reflexivity | discriminate].
Defined.

(** With no feature column and an empty label vector, [fit] raises
    [IndexError] after it has already written the type of the root: a tree
    that was the empty dict is left with the type terminal and no class,
    and [predict] then raises [KeyError] on every non-empty input. *)
Theorem fit_empty_without_columns (fuel : nat) (self : DecisionTree)
  (X : matrix) :
  ncols X = 0 ->
  _tree self = empty_node ->
  let after := fit (S fuel) self X [] in
  snd after = Raise IndexError
  /\ _tree (fst after)
     = Node (Some "terminal"%string) None None None None None
  /\ forall x X', predict (fst after) (x :: X') = Raise KeyError.
Proof.
  intros Hc Ht. unfold fit. cbn [_fit_node]. rewrite Hc, Ht.
  cbn. repeat split.
Qed.

Lemma fit_empty_without_columns_witness :
  let after := fit 1 (Build_DecisionTree empty_node [] None None None)
                 (Matrix 0 []) [] in
  snd after = Raise IndexError
  /\ _tree (fst after)
     = Node (Some "terminal"%string) None None None None None
  /\ forall x X', predict (fst after) (x :: X') = Raise KeyError.
Proof.
  apply (fit_empty_without_columns 0
           (Build_DecisionTree empty_node [] None None None) (Matrix 0 []));
    reflexivity.
Defined.

(** With at least one feature column, [fit] on labels that are not all one
    label (an empty label vector included) raises and leaves the object as
    it was, whatever the feature kinds and the shapes of the data. *)
Theorem fit_mixed_labels_raises (fuel : nat) (self : DecisionTree)
  (X : matrix) (y : list Z) :
  0 < ncols X ->
  ~ (exists l, all_labels l y) ->
  exists e, fit (S fuel) self X y = (self, Raise e).
Proof.
  intros Hpos Hmixed.
  destruct (search_step_raises (_feature_types self) X y search_init 0)
    as [e He].
  exists e. apply fit_raises_with; assumption.
Qed.

Lemma not_uniform_01 : ~ (exists l, all_labels l [0; 1]%Z).
Proof.
  intros [l [_ H]]. inversion H as [|? ? H0 H1]; subst.
  inversion H1; subst. discriminate.
Qed.

Lemma fit_mixed_labels_raises_witness :
  exists e,
    fit 1 (Build_DecisionTree empty_node ["real"%string] None None None)
      (Matrix 2 [[1; 2]; [3; 4]; [5; 6]]%Q) [0; 1]%Z
    = (Build_DecisionTree empty_node ["real"%string] None None None, Raise e).
Proof.
  apply (fit_mixed_labels_raises 0
           (Build_DecisionTree empty_node ["real"%string] None None None)
           (Matrix 2 [[1; 2]; [3; 4]; [5; 6]]%Q) [0; 1]%Z);
    [simpl; lia | exact not_uniform_01].
Defined.

(** The error of the first column: on labels that are not all one label,
    [fit] raises [IndexError] when the object has no feature-kind tag, and
    the error "Unknown feature type" when the tag of the first column is
    neither real nor categorical. *)
Theorem fit_first_column_tag_error (fuel : nat) (self : DecisionTree)
  (X : matrix) (y : list Z) :
  0 < ncols X ->
  ~ (exists l, all_labels l y) ->
  (_feature_types self = [] -> fit (S fuel) self X y = (self, Raise IndexError))
  /\ (forall kind,
        nth_error (_feature_types self) 0 = Some kind ->
        ~ valid_kind kind ->
        fit (S fuel) self X y
        = (self, Raise (ValueError "Unknown feature type"))).
Proof.
  intros Hpos Hmixed. split.
  - intro Hf. apply fit_raises_with; try assumption.
    unfold search_step, feature_vector_of. rewrite Hf. reflexivity.
  - intros kind Hk Hv. apply fit_raises_with; try assumption.
    unfold search_step, feature_vector_of, getitem. rewrite Hk. cbn [bind].
    destruct (String.eqb_spec kind "real") as [->|_];
      [exfalso; apply Hv; left; reflexivity|].
    destruct (String.eqb_spec kind "categorical") as [->|_];
      [exfalso; apply Hv; right; reflexivity|].
    reflexivity.
Qed.

Lemma fit_first_column_tag_error_witness :
  fit 1 (Build_DecisionTree empty_node [] None None None)
    (Matrix 1 [[1]; [2]]%Q) [0; 1]%Z
  = (Build_DecisionTree empty_node [] None None None, Raise IndexError)
  /\ fit 1 (Build_DecisionTree empty_node ["ordinal"%string] None None None)
       (Matrix 1 [[1]; [2]]%Q) [0; 1]%Z
     = (Build_DecisionTree empty_node ["ordinal"%string] None None None,
        Raise (ValueError "Unknown feature type")).
Proof.
  split.
  - apply (proj1 (fit_first_column_tag_error 0
                    (Build_DecisionTree empty_node [] None None None)
                    (Matrix 1 [[1]; [2]]%Q) [0; 1]%Z (Nat.lt_0_succ 0)
                    not_uniform_01)).
    reflexivity.
  - apply (proj2 (fit_first_column_tag_error 0
                    (Build_DecisionTree empty_node ["ordinal"%string]
                       None None None)
                    (Matrix 1 [[1]; [2]]%Q) [0; 1]%Z (Nat.lt_0_succ 0)
                    not_uniform_01) "ordinal"%string eq_refl).
    intros [H|H]; discriminate H.
Defined.



(* ================================================================= *)
(** ** Further properties of [predict] *)

(** Induction on a node with the hypothesis for both children. *)
Lemma node_children_ind (P : node -> Prop) :
  (forall ty cls fs th lc rc,
      (forall c, lc = Some c -> P c) ->
      (forall c, rc = Some c -> P c) ->
      P (Node ty cls fs th lc rc)) ->
  forall nd, P nd.
Proof.
  intro H. fix IH 1. intros [ty cls fs th lc rc]. apply H.
  - destruct lc as [c|]; intros c' Hc; [|discriminate].
    injection Hc as <-. apply IH.
  - destruct rc as [c|]; intros c' Hc; [|discriminate].
    injection Hc as <-. apply IH.
Qed.

Lemma map_result_pointwise {A B : Type} (f : A -> result B) (l : list A)
  (bs : list B) :
  map_result f l = Ok bs -> Forall2 (fun a b => f a = Ok b) l bs.
Proof.
  revert bs. induction l as [|a l IH]; intros bs; simpl.
  - intros [= <-]. constructor.
  - destruct (f a) as [b|] eqn:E; [|discriminate]. simpl.
    destruct (map_result f l) as [bs'|]; [|discriminate]. simpl.
    intros [= <-]. constructor; auto.
Qed.

Lemma Forall2_nth_error {A B : Type} (P : A -> B -> Prop) (l : list A)
  (l' : list B) :
  Forall2 P l l' ->
  forall i a, nth_error l i = Some a ->
              exists b, nth_error l' i = Some b /\ P a b.
Proof.
  induction 1 as [|x y l l' Hxy _ IH]; intros i a Hi.
  - destruct i; discriminate.
  - destruct i as [|i]; simpl in *; [injection Hi as <-; eauto|auto].
Qed.

(** [predict] answers row by row and in order: when it returns, it returns
    as many labels as there are rows, and the label at each position is
    what the walk of the tree gives for the row at that position. *)
Theorem predict_pointwise (self : DecisionTree) (X : list (list Q))
  (labels : list Z) :
  predict self X = Ok labels ->
  length labels = length X
  /\ forall i x,
      nth_error X i = Some x ->
      exists l,
        nth_error labels i = Some l
        /\ _predict_node (_feature_types self) x (_tree self) = Ok l.
Proof.
  intro H. apply map_result_pointwise in H. split.
  - symmetry. exact (Forall2_length H).
  - intros i x Hx. exact (Forall2_nth_error _ _ _ H i x Hx).
Qed.

Lemma predict_pointwise_witness :
  let self := Build_DecisionTree
                (Node (Some "nonterminal"%string) None (Some 0) (Some (3 # 2)%Q)
                   (Some (Node (Some "terminal"%string) (Some 0%Z)
                            None None None None))
                   (Some (Node (Some "terminal"%string) (Some 1%Z)
                            None None None None)))
                ["real"%string] None None None in
  length [1; 0; 0]%Z = length [[2]; [1]; [0]]%Q
  /\ forall i x,
      nth_error [[2]; [1]; [0]]%Q i = Some x ->
      exists l,
        nth_error [1; 0; 0]%Z i = Some l
        /\ _predict_node (_feature_types self) x (_tree self) = Ok l.
Proof.
  intro self.
  apply (predict_pointwise self [[2]; [1]; [0]]%Q [1; 0; 0]%Z).
  reflexivity.
Defined.

(** Before any [fit], the tree of a constructed object is the empty dict:
    [predict] returns the empty sequence for an input without rows and
    raises [KeyError] for any input with at least one row. *)
Theorem predict_before_fit (fts : list string) (md mss msl : option nat)
  (self : DecisionTree) :
  __init__ fts md mss msl = Ok self ->
  predict self [] = Ok []
  /\ forall x X, predict self (x :: X) = Raise KeyError.
Proof.
  intro H. apply init_ok_inv in H. destruct H as [_ ->].
  split; reflexivity.
Qed.

Lemma predict_before_fit_witness :
  predict (Build_DecisionTree empty_node ["real"%string] None None None) []
  = Ok []
  /\ forall x X,
      predict (Build_DecisionTree empty_node ["real"%string] None None None)
        (x :: X)
      = Raise KeyError.
Proof.
  apply (predict_before_fit ["real"%string] None None None). reflexivity.
Defined.

(** On a tree that can be walked for rows of the width of the row, the walk
    returns normally, and what it returns is the class of one of the
    terminal nodes of the tree. *)
Theorem predict_node_well_formed (fts : list string) (x : list Q) (nd : node) :
  well_formed fts (length x) nd ->
  exists l, _predict_node fts x nd = Ok l /\ In l (leaf_classes nd).
Proof.
  induction nd as [ty cls fs th lc rc IHl IHr] using node_children_ind.
  cbn [well_formed _predict_node leaf_classes].
  destruct ty as [t|]; [|intros []]. cbn [dict_get bind].
  destruct (String.eqb t "terminal").
  - destruct cls as [c|]; [|intro H; congruence].
    intros _. exists c. simpl. auto.
  - destruct fs as [f|]; [|intros []]. destruct th as [thr|]; [|intros []].
    destruct lc as [l|]; [|intros []]. destruct rc as [r|]; [|intros []].
    intros [Hf [[kind [Hk Hv]] [Hwl Hwr]]].
    destruct (IHl l eq_refl Hwl) as [cl [Hcl Hinl]].
    destruct (IHr r eq_refl Hwr) as [cr [Hcr Hinr]].
    cbn [dict_get bind]. unfold getitem.
    apply nth_error_Some in Hf.
    destruct (nth_error x f) as [v|]; [|congruence].
    rewrite Hk. cbn [bind].
    assert (Hl' : In cl (leaf_classes l ++ leaf_classes r))
      by (apply in_or_app; auto).
    assert (Hr' : In cr (leaf_classes l ++ leaf_classes r))
      by (apply in_or_app; auto).
    destruct Hv as [-> | ->]; cbn.
    + destruct (Qltb v thr); eauto.
    + destruct (Qltb (inject_Z (py_int v)) thr); eauto.
Qed.

Lemma predict_node_well_formed_witness :
  let nd := Node (Some "nonterminal"%string) None (Some 1) (Some (1 # 2)%Q)
              (Some (Node (Some "terminal"%string) (Some 4%Z)
                       None None None None))
              (Some (Node (Some "terminal"%string) (Some 9%Z)
                       None None None None)) in
  exists l,
    _predict_node ["real"; "categorical"]%string [7; 3]%Q nd = Ok l
    /\ In l (leaf_classes nd).
Proof.
  intro nd.
  apply (predict_node_well_formed ["real"; "categorical"]%string [7; 3]%Q nd).
  cbn. repeat split; try lia; try discriminate.
  exists "categorical"%string. split; [reflexivity|right; reflexivity].
Defined.

(** On a tree whose features are all categorical, the walk reads a row only
    through the integer parts of its entries: two rows whose entries have
    the same integer parts, position by position, get the same answer. *)
Theorem predict_node_categorical_truncates (fts : list string)
  (x x' : list Q) (nd : node) :
  Forall (fun kind => kind = "categorical"%string) fts ->
  Forall2 (fun a b => py_int a = py_int b) x x' ->
  _predict_node fts x nd = _predict_node fts x' nd.
Proof.
  intros Hcat Hxx.
  induction nd as [ty cls fs th lc rc IHl IHr] using node_children_ind.
  cbn [_predict_node]. destruct ty as [t|]; [|reflexivity]. cbn [dict_get bind].
  destruct (String.eqb t "terminal"); [reflexivity|].
  destruct fs as [f|]; [|reflexivity]. cbn [dict_get bind]. unfold getitem.
  destruct (nth_error x f) as [v|] eqn:Ev.
  - destruct (Forall2_nth_error _ _ _ Hxx f v Ev) as [v' [Ev' Hint]].
    rewrite Ev'. cbn [bind].
    destruct (nth_error fts f) as [kind|] eqn:Ek; [|reflexivity]. cbn [bind].
    rewrite Forall_forall in Hcat.
    rewrite (Hcat kind (nth_error_In _ _ Ek)). cbn.
    destruct th as [thr|]; [|reflexivity]. cbn. rewrite Hint.
    destruct (Qltb (inject_Z (py_int v')) thr).
    + destruct lc as [l|]; [apply IHl|]; reflexivity.
    + destruct rc as [r|]; [apply IHr|]; reflexivity.
  - assert (Ev' : nth_error x' f = None).
    { apply nth_error_None. rewrite <- (Forall2_length Hxx).
      apply nth_error_None. exact Ev. }
    rewrite Ev'. reflexivity.
Qed.

Lemma predict_node_categorical_truncates_witness :
  let nd := Node (Some "nonterminal"%string) None (Some 0) (Some (1 # 2)%Q)
              (Some (Node (Some "terminal"%string) (Some 4%Z)
                       None None None None))
              (Some (Node (Some "terminal"%string) (Some 9%Z)
                       None None None None)) in
  _predict_node ["categorical"%string] [9 # 10]%Q nd
  = _predict_node ["categorical"%string] [0]%Q nd.
Proof.
  intro nd.
  apply (predict_node_categorical_truncates
           ["categorical"%string] [9 # 10]%Q [0]%Q nd);
    repeat constructor.
Defined.

(* ================================================================= *)
(** ** Further properties of the categorical encoding *)



Lemma categorical_feature_vector_unfold (col : list Q) (sub_y : list Z) :
  length col = length sub_y ->
  categorical_feature_vector col sub_y
  = (ranks <- map_result
                (fun x =>
                   map_get x
                     (enumerate_from 0
                        (sorted_by_key
                           (map (fun cat => (cat, statistic col sub_y cat))
                              (classes_of Qeq_bool col))))) col ;;
     Ok (map Q_of_nat ranks)).
Proof.
  intro Hlen. unfold categorical_feature_vector.
  rewrite (mask_select_map (fun y => Z.eqb y 1) sub_y col)
    by (symmetry; exact Hlen).
  fold (clicked_values col sub_y). cbn [bind].
  rewrite ratio_of_spec.
  rewrite (keys_Counter Q Qeq_bool Qeqb_refl Qeqb_sym Qeqb_trans).
  reflexivity.
Qed.

Lemma map_get_found (x : Q) (cats : list (Q * Q)) :
  forall idx r,
    map_get x (enumerate_from idx cats) = Ok r ->
    idx <= r
    /\ exists cat s,
        nth_error cats (r - idx) = Some (cat, s)
        /\ (cat == x)%Q
        /\ forall j c s',
            j < r - idx -> nth_error cats j = Some (c, s') -> ~ (c == x)%Q.
Proof.
  induction cats as [|[c s0] cats IH]; intros idx r; simpl; [discriminate|].
  destruct (Qeq_bool c x) eqn:E.
  - intros [= <-]. split; [lia|]. rewrite Nat.sub_diag.
    exists c, s0. repeat split; [apply Qeq_bool_iff; exact E|].
    intros j c' s' Hj. lia.
  - intro H. apply IH in H. destruct H as [Hle [cat [s [Hn [Hq Hfirst]]]]].
    split; [lia|]. exists cat, s.
    replace (r - idx) with (S (r - S idx)) by lia.
    repeat split; [exact Hn|exact Hq|].
    intros j c' s' Hj Hc. destruct j as [|j]; simpl in Hc.
    + injection Hc as <- <-. intro Hcx. apply Qeq_bool_iff in Hcx. congruence.
    + apply (Hfirst j c' s'); [lia|exact Hc].
Qed.

Lemma map_get_Qeq (x x' : Q) (m : list (Q * nat)) :
  (x == x')%Q -> map_get x m = map_get x' m.
Proof.
  intro H. induction m as [|[cat idx] m IH]; simpl; [reflexivity|].
  assert (E : Qeq_bool cat x = Qeq_bool cat x').
  { destruct (Qeq_bool cat x') eqn:E'.
    - apply Qeq_bool_iff. apply Qeq_bool_iff in E'. rewrite H. exact E'.
    - destruct (Qeq_bool cat x) eqn:E''; [|reflexivity].
      apply Qeq_bool_iff in E''. rewrite H in E''.
      apply Qeq_bool_iff in E''. congruence. }
  rewrite E, IH. reflexivity.
Qed.

Lemma statistic_Qeq (col : list Q) (sub_y : list Z) (c x : Q) :
  (c == x)%Q -> statistic col sub_y c = statistic col sub_y x.
Proof.
  intro H. apply Qeq_bool_iff in H. unfold statistic.
  rewrite (occurrences_equiv Q Qeq_bool Qeqb_sym Qeqb_trans c x _ H).
  rewrite (occurrences_equiv Q Qeq_bool Qeqb_sym Qeqb_trans c x col H).
  reflexivity.
Qed.

Lemma StronglySorted_nth {A : Type} (R : A -> A -> Prop) (l : list A) :
  StronglySorted R l ->
  forall i j a b,
    i < j -> nth_error l i = Some a -> nth_error l j = Some b -> R a b.
Proof.
  induction 1 as [|x l Hl IH Hx]; intros i j a b Hij Ha Hb.
  - destruct i; discriminate.
  - destruct j as [|j]; [lia|]. simpl in Hb.
    destruct i as [|i]; simpl in Ha.
    + injection Ha as <-. rewrite Forall_forall in Hx.
      apply Hx. eapply nth_error_In; eauto.
    + apply (IH i j); [lia|assumption|assumption].
Qed.

(** What the encoding gives at each position of the column: the index, in
    the sorted order, of the first category that is the value at that
    position, together with its statistic. *)
Lemma categorical_positions (col : list Q) (sub_y : list Z) (v : list Q) :
  length col = length sub_y ->
  categorical_feature_vector col sub_y = Ok v ->
  let sorted_categories :=
    sorted_by_key (map (fun cat => (cat, statistic col sub_y cat))
                     (classes_of Qeq_bool col)) in
  forall i x q,
    nth_error col i = Some x ->
    nth_error v i = Some q ->
    exists r cat,
      q = Q_of_nat r
      /\ map_get x (enumerate_from 0 sorted_categories) = Ok r
      /\ nth_error sorted_categories r = Some (cat, statistic col sub_y x)
      /\ (cat == x)%Q.
Proof.
  intros Hlen Hv sorted_categories i x q Hx Hq.
  rewrite (categorical_feature_vector_unfold col sub_y Hlen) in Hv.
  fold sorted_categories in Hv.
  destruct (map_result _ col) as [ranks|] eqn:Er; [|discriminate].
  cbn [bind] in Hv. injection Hv as <-.
  apply map_result_pointwise in Er.
  destruct (Forall2_nth_error _ _ _ Er i x Hx) as [r [Hr Hget]].
  rewrite nth_error_map, Hr in Hq. injection Hq as <-.
  destruct (map_get_found x sorted_categories 0 r Hget)
    as [_ [cat [s [Hn [Hcx _]]]]].
  rewrite Nat.sub_0_r in Hn.
  exists r, cat. repeat split; try assumption.
  rewrite Hn. f_equal. f_equal.
  apply nth_error_In in Hn.
  apply (Permutation_in _ (sorted_by_key_perm _)) in Hn.
  apply in_map_iff in Hn. destruct Hn as [c' [[= -> <-] _]].
  apply statistic_Qeq. exact Hcx.
Qed.

(** The encoding separates the categories: two positions of the column get
    the same rank exactly when they hold the same value. *)
Theorem categorical_ranks_injective (col : list Q) (sub_y : list Z)
  (v : list Q) (i j : nat) (xi xj qi qj : Q) :
  length col = length sub_y ->
  categorical_feature_vector col sub_y = Ok v ->
  nth_error col i = Some xi -> nth_error col j = Some xj ->
  nth_error v i = Some qi -> nth_error v j = Some qj ->
  (qi == qj)%Q <-> (xi == xj)%Q.
Proof.
  intros Hlen Hv Hxi Hxj Hqi Hqj.
  destruct (categorical_positions col sub_y v Hlen Hv i xi qi Hxi Hqi)
    as [ri [ci [-> [Hgi [Hni Hci]]]]].
  destruct (categorical_positions col sub_y v Hlen Hv j xj qj Hxj Hqj)
    as [rj [cj [-> [Hgj [Hnj Hcj]]]]].
  split.
  - intro H. apply Q_of_nat_eq in H. subst rj.
    rewrite Hni in Hnj. injection Hnj as -> _.
    rewrite <- Hci. exact Hcj.
  - intro H. rewrite (map_get_Qeq xi xj _ H) in Hgi.
    rewrite Hgi in Hgj. injection Hgj as <-. reflexivity.
Qed.

Lemma categorical_ranks_injective_witness :
  ((2 == 2)%Q <-> (5 == 10 # 2)%Q) /\ ((2 == 0)%Q <-> (5 == 7)%Q).
Proof.
  split.
  - apply (categorical_ranks_injective [5; 7; 10 # 2; 9]%Q [1; 0; 0; 1]%Z
             [2; 0; 2; 1]%Q 0 2); reflexivity.
  - apply (categorical_ranks_injective [5; 7; 10 # 2; 9]%Q [1; 0; 0; 1]%Z
             [2; 0; 2; 1]%Q 0 1); reflexivity.
Defined.

(** The encoding follows the statistic: a position whose category has a
    strictly smaller statistic gets a strictly smaller rank. *)
Theorem categorical_ranks_monotone (col : list Q) (sub_y : list Z)
  (v : list Q) (i j : nat) (xi xj qi qj : Q) :
  length col = length sub_y ->
  categorical_feature_vector col sub_y = Ok v ->
  nth_error col i = Some xi -> nth_error col j = Some xj ->
  nth_error v i = Some qi -> nth_error v j = Some qj ->
  (statistic col sub_y xi < statistic col sub_y xj)%Q ->
  (qi < qj)%Q.
Proof.
  intros Hlen Hv Hxi Hxj Hqi Hqj Hlt.
  destruct (categorical_positions col sub_y v Hlen Hv i xi qi Hxi Hqi)
    as [ri [ci [-> [_ [Hni _]]]]].
  destruct (categorical_positions col sub_y v Hlen Hv j xj qj Hxj Hqj)
    as [rj [cj [-> [_ [Hnj _]]]]].
  apply Q_of_nat_lt.
  destruct (Nat.lt_trichotomy ri rj) as [H|[H|H]]; [exact H| |]; exfalso.
  - subst rj. rewrite Hni in Hnj. injection Hnj as _ Hs.
    rewrite Hs in Hlt. exact (Qlt_irrefl _ Hlt).
  - assert (Hle := StronglySorted_nth _ _ (sorted_by_key_sorted _)
                     rj ri _ _ H Hnj Hni).
    simpl in Hle. exact (Qlt_not_le _ _ Hlt Hle).
Qed.

Lemma categorical_ranks_monotone_witness : (0 < 2)%Q.
Proof.
  apply (categorical_ranks_monotone [5; 7; 5; 9]%Q [1; 0; 0; 1]%Z
           [2; 0; 2; 1]%Q 1 0 7 5); reflexivity.
Defined.

Lemma same_key_equivalence :
  Equivalence (fun a b : Q * Q => (fst a == fst b)%Q).
Proof.
  split.
  - intros a. reflexivity.
  - intros a b H. symmetry. exact H.
  - intros a b c H1 H2. rewrite H1. exact H2.
Qed.

Lemma tabulated_keys_distinct (g : Q -> Q) (cs : list Q) :
  ForallOrdPairs (fun a b => Qeq_bool a b = false) cs ->
  NoDupA (fun a b : Q * Q => (fst a == fst b)%Q) (map (fun c => (c, g c)) cs).
Proof.
  induction 1 as [|c cs Hc _ IH]; simpl; constructor; [|exact IH].
  intro Hin. apply InA_alt in Hin. destruct Hin as [y [Hcy Hy]].
  apply in_map_iff in Hy. destruct Hy as [d [<- Hd]]. simpl in Hcy.
  rewrite Forall_forall in Hc. specialize (Hc d Hd).
  apply Qeq_bool_iff in Hcy. congruence.
Qed.

Lemma NoDupA_nth_error {A : Type} (eqA : A -> A -> Prop) (l : list A) :
  NoDupA eqA l ->
  forall i j a b,
    nth_error l i = Some a -> nth_error l j = Some b -> eqA a b ->
    i <= j -> i = j.
Proof.
  induction 1 as [|x l Hx _ IH]; intros i j a b Ha Hb Hab Hij.
  - destruct i; discriminate.
  - destruct i as [|i], j as [|j]; simpl in *; try lia.
    + exfalso. injection Ha as <-. apply Hx. apply InA_alt.
      exists b. split; [exact Hab|]. eapply nth_error_In; eauto.
    + f_equal. apply (IH i j a b); auto. lia.
Qed.

Lemma sorted_categories_distinct (col : list Q) (sub_y : list Z) :
  NoDupA (fun a b : Q * Q => (fst a == fst b)%Q)
    (sorted_by_key (map (fun cat => (cat, statistic col sub_y cat))
                      (classes_of Qeq_bool col))).
Proof.
  assert (HP : PermutationA (fun a b : Q * Q => (fst a == fst b)%Q)
                 (map (fun cat => (cat, statistic col sub_y cat))
                    (classes_of Qeq_bool col))
                 (sorted_by_key
                    (map (fun cat => (cat, statistic col sub_y cat))
                       (classes_of Qeq_bool col)))).
  { apply (Permutation_PermutationA same_key_equivalence).
    symmetry. apply sorted_by_key_perm. }
  apply (PermutationA_preserves_NoDupA same_key_equivalence HP).
  apply tabulated_keys_distinct. apply classes_of_distinct.
Qed.

(** The ranks of the encoding are exactly the numbers from 0 to k - 1,
    where k is the number of distinct values of the column: every entry of
    the result is one of them, and each of them is an entry of the
    result. *)
Theorem categorical_ranks_cover (col : list Q) (sub_y : list Z) (v : list Q) :
  length col = length sub_y ->
  categorical_feature_vector col sub_y = Ok v ->
  let k := length (classes_of Qeq_bool col) in
  length v = length col
  /\ (forall q, In q v -> exists r, q = Q_of_nat r /\ r < k)
  /\ (forall r, r < k -> In (Q_of_nat r) v).
Proof.
  intros Hlen Hv k.
  set (sorted_categories :=
         sorted_by_key (map (fun cat => (cat, statistic col sub_y cat))
                          (classes_of Qeq_bool col))).
  assert (Hk : length sorted_categories = k).
  { unfold sorted_categories.
    rewrite (Permutation_length (sorted_by_key_perm _)). apply length_map. }
  assert (Hlv : length v = length col).
  { assert (Hv' := Hv).
    rewrite (categorical_feature_vector_unfold col sub_y Hlen) in Hv'.
    destruct (map_result _ col) as [ranks|] eqn:Er; [|discriminate].
    cbn [bind] in Hv'. injection Hv' as <-.
    apply map_result_pointwise in Er.
    rewrite length_map. symmetry. exact (Forall2_length Er). }
  split; [exact Hlv|]. split.
  - intros q Hq. apply In_nth_error in Hq. destruct Hq as [i Hi].
    assert (Hix : i < length col)
      by (rewrite <- Hlv; apply nth_error_Some; congruence).
    apply nth_error_Some in Hix.
    destruct (nth_error col i) as [x|] eqn:Ex; [|congruence].
    destruct (categorical_positions col sub_y v Hlen Hv i x q Ex Hi)
      as [r [cat [-> [_ [Hn _]]]]].
    exists r. split; [reflexivity|]. rewrite <- Hk.
    apply nth_error_Some. fold sorted_categories in Hn. congruence.
  - intros r Hr. rewrite <- Hk in Hr. apply nth_error_Some in Hr.
    destruct (nth_error sorted_categories r) as [[cat s]|] eqn:En;
      [|congruence].
    assert (Hin : In cat col).
    { apply nth_error_In in En.
      apply (Permutation_in _ (sorted_by_key_perm _)) in En.
      apply in_map_iff in En. destruct En as [c [[= -> _] Hc]].
      apply classes_of_in in Hc. exact Hc. }
    apply In_nth_error in Hin. destruct Hin as [i Hi].
    assert (Hiv : i < length v)
      by (rewrite Hlv; apply nth_error_Some; congruence).
    apply nth_error_Some in Hiv.
    destruct (nth_error v i) as [q|] eqn:Eq; [|congruence].
    destruct (categorical_positions col sub_y v Hlen Hv i cat q Hi Eq)
      as [r' [cat' [-> [_ [Hn' Hc']]]]].
    fold sorted_categories in Hn'.
    assert (Hrr : r' = r).
    { destruct (Nat.le_ge_cases r' r) as [Hle|Hle].
      - apply (NoDupA_nth_error _ _ (sorted_categories_distinct col sub_y)
                 r' r _ _ Hn' En); [exact Hc'|exact Hle].
      - symmetry.
        apply (NoDupA_nth_error _ _ (sorted_categories_distinct col sub_y)
                 r r' _ _ En Hn'); [simpl; symmetry; exact Hc'|exact Hle]. }
    subst r'. eapply nth_error_In. exact Eq.
Qed.

Lemma categorical_ranks_cover_witness :
  length [2; 0; 2; 1]%Q = length [5; 7; 5; 9]%Q
  /\ (forall q, In q [2; 0; 2; 1]%Q -> exists r, q = Q_of_nat r /\ r < 3)
  /\ (forall r, r < 3 -> In (Q_of_nat r) [2; 0; 2; 1]%Q).
Proof.
  apply (categorical_ranks_cover [5; 7; 5; 9]%Q [1; 0; 0; 1]%Z
           [2; 0; 2; 1]%Q); reflexivity.
Defined.

(* ================================================================= *)
(** ** The update of the incumbent *)




(* ================================================================= *)
(** ** Thresholds and samples; repeated and successful fits *)




Lemma fit_mixed_labels_raises_helper (fuel : nat) (self : DecisionTree)
  (X : matrix) (y : list Z) :
  0 < ncols X ->
  length (py_set y) <> 1 ->
  exists e, fit (S fuel) self X y = (self, Raise e).
Proof.
  intros Hpos Hset.
  destruct (fit_node_mixed fuel (_feature_types self) X y (_tree self)
              Hset Hpos) as [e [_ Hfit]].
  exists e. unfold fit. rewrite Hfit. fold (with_tree self (_tree self)).
  rewrite with_tree_same. reflexivity.
Qed.

Lemma fit_no_columns (fuel : nat) (self : DecisionTree) (X : matrix)
  (y : list Z) :
  ncols X = 0 ->
  length (py_set y) <> 1 ->
  fit (S fuel) self X y
  = match getitem (most_common1 (Counter Z.eqb y)) 0 with
    | Ok (cls, _) => (with_tree self (set_terminal (_tree self) cls), Ok tt)
    | Raise e =>
        (with_tree self
           (Node (Some "terminal"%string) (nclass (_tree self))
              (feature_split (_tree self)) (threshold (_tree self))
              (left_child (_tree self)) (right_child (_tree self))),
         Raise e)
    end.
Proof.
  intros Hc Hset. unfold fit. cbn [_fit_node]. rewrite Hc.
  destruct (Nat.eqb_spec (length (py_set y)) 1) as [H|_]; [contradiction|].
  cbn [seq search_loop gini_best search_init].
  destruct (getitem (most_common1 (Counter Z.eqb y)) 0) as [[cls n]|e];
    reflexivity.
Qed.

(** [fit] is idempotent, in its failures too: a second call with the same
    data on the object left by a first call leaves the same object and has
    the same outcome. *)
Theorem fit_idempotent (fuel : nat) (self : DecisionTree) (X : matrix)
  (y : list Z) :
  fit (S fuel) (fst (fit (S fuel) self X y)) X y = fit (S fuel) self X y.
Proof.
  destruct (Nat.eq_dec (length (py_set y)) 1) as [Eset|Eset].
  - destruct (py_set_single y Eset) as [l Hl].
    rewrite !(fit_uniform fuel _ X y l Hl). reflexivity.
  - destruct (Nat.eq_dec (ncols X) 0) as [Hc|Hc].
    + rewrite !(fit_no_columns fuel _ X y Hc Eset).
      destruct (getitem (most_common1 (Counter Z.eqb y)) 0) as [[cls n]|e];
        reflexivity.
    + destruct (fit_mixed_labels_raises_helper fuel self X y) as [e He];
        [lia|exact Eset|].
      rewrite He. exact He.
Qed.

(** Whenever [fit] returns normally, the root is a terminal node holding
    the first most frequent label of the label vector, and [predict] then
    answers that one label for every row of every input. *)
Theorem fit_then_predict_constant (fuel : nat) (self : DecisionTree)
  (X : matrix) (y : list Z) :
  snd (fit (S fuel) self X y) = Ok tt ->
  exists c,
    first_majority c y
    /\ is_terminal (_tree (fst (fit (S fuel) self X y))) c
    /\ forall X', predict (fst (fit (S fuel) self X y)) X'
                  = Ok (map (fun _ => c) X').
Proof.
  intro Hok.
  assert (Hgoal : exists c,
             first_majority c y
             /\ is_terminal (_tree (fst (fit (S fuel) self X y))) c).
  { destruct (Nat.eq_dec (length (py_set y)) 1) as [Eset|Eset].
    - destruct (py_set_single y Eset) as [l Hl]. exists l.
      rewrite (fit_uniform fuel self X y l Hl). split.
      + exists [], []. destruct Hl as [Hne Hl].
        rewrite (classes_of_uniform l y Hne Hl). repeat split; constructor.
      + split; reflexivity.
    - destruct (Nat.eq_dec (ncols X) 0) as [Hc|Hc].
      + destruct y as [|y0 y]; [rewrite (fit_no_columns fuel self X [] Hc Eset)
                                  in Hok; discriminate Hok|].
        destruct (fit_without_columns_majority_helper fuel self X (y0 :: y) Hc)
          as [c [Hfit Hmaj]]; [discriminate|].
        exists c. rewrite Hfit. split; [exact Hmaj|split; reflexivity].
      + destruct (fit_mixed_labels_raises_helper fuel self X y) as [e He];
          [lia|exact Eset|].
        rewrite He in Hok. discriminate Hok. }
  destruct Hgoal as [c [Hmaj Hterm]]. exists c.
  split; [exact Hmaj|]. split; [exact Hterm|].
  intro X'. apply predict_terminal. exact Hterm.
Qed.

Lemma fit_then_predict_constant_witness :
  exists c,
    first_majority c [3; 8; 8; 3; 5]%Z
    /\ is_terminal
         (_tree (fst (fit 1 (Build_DecisionTree empty_node [] None None None)
                        (Matrix 0 [[]; []; []; []; []]) [3; 8; 8; 3; 5]%Z))) c
    /\ forall X',
        predict (fst (fit 1 (Build_DecisionTree empty_node [] None None None)
                        (Matrix 0 [[]; []; []; []; []]) [3; 8; 8; 3; 5]%Z)) X'
        = Ok (map (fun _ => c) X').
Proof.
  apply (fit_then_predict_constant 0
           (Build_DecisionTree empty_node [] None None None)
           (Matrix 0 [[]; []; []; []; []]) [3; 8; 8; 3; 5]%Z).
  reflexivity.
Defined.
